(** * Keyword extractor: the logic of [keyword-extractor.tsx] in Rocq

    The component [KeywordExtractor] holds three pieces of state and three
    functions: [extractKeywords] (tokenise, count, sort, slice), [highlight]
    (escape, build a regular expression, replace) and [handleSubmit].

    The embedding follows the TypeScript source line by line.  The built-in
    operations the source calls ([String.prototype.toLowerCase], [split],
    [trim], property access on an object literal, [Object.entries],
    [Array.prototype.sort], [slice], [join], [new RegExp], [replace]) are
    modelled after ECMAScript, each restricted to the way the source calls it. *)

From Stdlib Require Import List NArith ZArith Bool Lia String Ascii.
From Stdlib Require Import Permutation Sorted.
Import ListNotations.

Open Scope N_scope.

(** ** Strings

    A JavaScript string is a sequence of 16-bit code units. *)

Definition codeunit := N.
Definition jsstring := list codeunit.

(** An ASCII literal as a JavaScript string. *)
Definition str (s : string) : jsstring :=
  map N_of_ascii (list_ascii_of_string s).

Fixpoint eqbStr (a b : jsstring) : bool :=
  match a, b with
  | [], [] => true
  | x :: a', y :: b' => (x =? y) && eqbStr a' b'
  | _, _ => false
  end.

(** [Set.prototype.has] and the like on an array of strings. *)
Definition has (l : list jsstring) (w : jsstring) : bool :=
  existsb (eqbStr w) l.

(** *** Character classes *)

Definition isDigit (c : codeunit) : bool := (48 <=? c) && (c <=? 57).
Definition isUpper (c : codeunit) : bool := (65 <=? c) && (c <=? 90).
Definition isLower (c : codeunit) : bool := (97 <=? c) && (c <=? 122).

(** The class [[a-zA-Z0-9]]; the separator class of the source is its
    complement [[^a-zA-Z0-9]]. *)
Definition isAlnum (c : codeunit) : bool := isLower c || isUpper c || isDigit c.

(** The class [\w] that decides the assertion [\b] (no [u] flag):
    [[A-Za-z0-9_]]. *)
Definition isWordChar (c : codeunit) : bool := isAlnum c || (c =? 95).

Definition isAscii (c : codeunit) : bool := c <? 128.

Definition asciiLower (c : codeunit) : codeunit := if isUpper c then c + 32 else c.
Definition asciiUpper (c : codeunit) : codeunit := if isLower c then c - 32 else c.

(** WhiteSpace and LineTerminator of ECMAScript, what [trim] strips: TAB, LF,
    VT, FF, CR, SP, NBSP, the space separators (category Zs), LS, PS and the
    byte order mark. *)
Definition isWhiteSpace (c : codeunit) : bool :=
  ((9 <=? c) && (c <=? 13)) || (c =? 32) || (c =? 160) || (c =? 5760)
  || ((8192 <=? c) && (c <=? 8202)) || (c =? 8232) || (c =? 8233)
  || (c =? 8239) || (c =? 8287) || (c =? 12288) || (c =? 65279).

(** What ECMAScript leaves to the JavaScript engine, not to the repository.
    The case tables: [unicodeLower] is [toLowerCase] on a text that has
    characters outside ASCII, and [unicodeUpper] is [toUpperCase] of a single
    character outside ASCII.  The order [Array.prototype.sort] leaves an
    array in when the comparator is not a consistent one: [engineSort];
    whatever the order, the array holds the same elements afterwards. *)
Class Engine : Type := {
  unicodeLower : jsstring -> jsstring;
  unicodeUpper : codeunit -> jsstring;
  engineSort : forall A : Type, (A -> A -> option Z) -> list A -> list A;
  engineSort_permutes :
    forall (A : Type) (comparefn : A -> A -> option Z) (l : list A),
      Permutation (engineSort A comparefn l) l
}.

Module JSString.

(** [String.prototype.toLowerCase].  On ASCII text it lowers the letters A-Z
    and leaves the rest.  On other text the result is the Unicode default
    case conversion, whose tables belong to the engine, not to this
    repository: [unicodeLower] stands for the conversion of the characters
    outside ASCII.  No lower-case mapping of Unicode yields an upper-case
    ASCII letter, so lowering the ASCII letters after it changes nothing of
    the engine's result. *)
Definition toLowerCase {engine : Engine} (s : jsstring) : jsstring :=
  map asciiLower (if forallb isAscii s then s else unicodeLower s).

Fixpoint dropWhile (p : codeunit -> bool) (s : jsstring) : jsstring :=
  match s with
  | [] => []
  | c :: r => if p c then dropWhile p r else s
  end.

Definition trimStart (s : jsstring) : jsstring := dropWhile isWhiteSpace s.
Definition trimEnd (s : jsstring) : jsstring := rev (dropWhile isWhiteSpace (rev s)).

(** [String.prototype.trim]. *)
Definition trim (s : jsstring) : jsstring := trimEnd (trimStart s).

(** [s.split(/[^a-zA-Z0-9]+/)]: the pieces between the maximal runs of
    separators.  A separator at the start or at the end of [s] leaves an
    empty piece there, and the empty string splits into one empty piece. *)
Fixpoint split (s : jsstring) : list jsstring :=
  match s with
  | [] => [[]]
  | c :: r =>
      if isAlnum c then
        match split r with
        | p :: ps => (c :: p) :: ps
        | [] => [[c]]
        end
      else
        match r with
        | d :: _ => if isAlnum d then [] :: split r else split r
        | [] => [] :: split r
        end
  end.

(** [Boolean(s)] on a string: the empty string is the only falsy one. *)
Definition truthy (s : jsstring) : bool :=
  match s with [] => false | _ => true end.

(** [Array.prototype.join] on an array of strings. *)
Fixpoint join (sep : jsstring) (l : list jsstring) : jsstring :=
  match l with
  | [] => []
  | [a] => a
  | a :: r => a ++ sep ++ join sep r
  end.

End JSString.

(** ** Objects used as maps

    [freq] is the object literal [{}]: an ordinary object whose prototype is
    [Object.prototype].  A property read that finds no own property goes on
    to the prototype; of the properties of [Object.prototype], only
    [constructor] has a name made of lower-case letters and digits. *)

Module JSObject.

(** The values [freq[w]] can take in [extractKeywords]. *)
Inductive value : Type :=
| Undefined
| Number (n : nat)
| ObjectConstructor          (* the function [Object] *)
| NativeText (ones : nat).   (* [String(Object)] followed by [ones] characters 1 *)

(** The own properties of the object, in the order of their creation. *)
Definition object := list (jsstring * value).

Fixpoint getOwn (o : object) (k : jsstring) : option value :=
  match o with
  | [] => None
  | (k', v) :: r => if eqbStr k k' then Some v else getOwn r k
  end.

(** [Object.prototype[k]] for a key of lower-case letters and digits. *)
Definition prototypeGet (k : jsstring) : value :=
  if eqbStr k (str "constructor") then ObjectConstructor else Undefined.

(** [o[k]] *)
Definition get (o : object) (k : jsstring) : value :=
  match getOwn o k with
  | Some v => v
  | None => prototypeGet k
  end.

(** [o[k] = v]: an own property keeps its place, a new one goes last. *)
Fixpoint set (o : object) (k : jsstring) (v : value) : object :=
  match o with
  | [] => [(k, v)]
  | (k', v') :: r => if eqbStr k k' then (k', v) :: r else (k', v') :: set r k v
  end.

(** [(x || 0) + 1].  [undefined] and [0] are falsy, so the sum is [0 + 1];
    a function or a string is truthy, and [+] then concatenates text. *)
Definition orZeroPlusOne (x : value) : value :=
  match x with
  | Undefined => Number 1
  | Number n => Number (S n)
  | ObjectConstructor => NativeText 1
  | NativeText k => NativeText (S k)
  end.

(** [ToNumber]: [None] is NaN.  The text of a function is no numeric
    literal. *)
Definition toNumber (v : value) : option Z :=
  match v with
  | Number n => Some (Z.of_nat n)
  | _ => None
  end.

(** [x - y] on values. *)
Definition minus (x y : value) : option Z :=
  match toNumber x, toNumber y with
  | Some a, Some b => Some (a - b)%Z
  | _, _ => None
  end.

(** The value of a canonical numeric string: digits without a leading zero
    (the string 0 apart). *)
Fixpoint digitsValue (acc : N) (s : jsstring) : option N :=
  match s with
  | [] => Some acc
  | c :: r => if isDigit c then digitsValue (10 * acc + (c - 48)) r else None
  end.

(** An array index is a canonical numeric string below 2^32 - 1. *)
Definition arrayIndex (k : jsstring) : option N :=
  match k with
  | [] => None
  | c :: r =>
      if (c =? 48) && JSString.truthy r then None
      else match digitsValue 0 k with
           | Some n => if n <? 4294967295 then Some n else None
           | None => None
           end
  end.

Fixpoint insertIndex (e : N * (jsstring * value)) (l : list (N * (jsstring * value)))
  : list (N * (jsstring * value)) :=
  match l with
  | [] => [e]
  | e' :: r => if fst e <=? fst e' then e :: l else e' :: insertIndex e r
  end.

Fixpoint indexEntries (o : object) : list (N * (jsstring * value)) :=
  match o with
  | [] => []
  | (k, v) :: r =>
      match arrayIndex k with
      | Some i => insertIndex (i, (k, v)) (indexEntries r)
      | None => indexEntries r
      end
  end.

Definition nameEntries (o : object) : list (jsstring * value) :=
  filter (fun e => match arrayIndex (fst e) with Some _ => false | None => true end) o.

(** [Object.entries(o)]: the array indices in ascending order, then the
    other keys in the order of their creation. *)
Definition entries (o : object) : list (jsstring * value) :=
  map snd (indexEntries o) ++ nameEntries o.

End JSObject.

(** ** Arrays *)

Module JSArray.

Section Sort.
Context {A : Type}.
(** The comparator; [None] is NaN, which [sort] reads as 0. *)
Variable comparefn : A -> A -> option Z.

Definition sortsBefore (x y : A) : bool :=
  match comparefn x y with
  | Some v => (v <=? 0)%Z
  | None => true
  end.

Fixpoint insert (x : A) (l : list A) : list A :=
  match l with
  | [] => [x]
  | y :: r => if sortsBefore x y then x :: l else y :: insert x r
  end.

(** The stable sorted order: elements that compare equal keep their
    order.  With a consistent comparator it is what every conforming sort
    returns. *)
Fixpoint stableSort (l : list A) : list A :=
  match l with
  | [] => []
  | x :: r => insert x (stableSort r)
  end.

(** SortCompare: the number the comparator returns, NaN read as +0. *)
Definition compare (x y : A) : Z :=
  match comparefn x y with
  | Some v => v
  | None => 0%Z
  end.

(** The requirements of ECMAScript on a consistent comparator, at three
    elements: reflexivity and symmetry of "compares equal", and transitivity
    of "compares equal", "compares less" and "compares greater".  They are
    read on the numbers of SortCompare, the only ones a sort sees: a NaN
    between two elements makes them compare equal. *)
Definition consistentAt (a b c : A) : bool :=
  (compare a a =? 0)%Z
  && implb (compare a b =? 0)%Z (compare b a =? 0)%Z
  && implb ((compare a b =? 0)%Z && (compare b c =? 0)%Z) (compare a c =? 0)%Z
  && implb ((compare a b <? 0)%Z && (compare b c <? 0)%Z) (compare a c <? 0)%Z
  && implb ((0 <? compare a b)%Z && (0 <? compare b c)%Z) (0 <? compare a c)%Z.

(** The comparator is consistent for the elements of the array. *)
Definition consistentOn (l : list A) : bool :=
  forallb (fun a => forallb (fun b => forallb (consistentAt a b) l) l) l.

(** Binary insertion, the way V8 sorts an array of fewer than 64 elements:
    the longest run the array starts with (reversed when it descends) is
    kept, and each further element is put at the place a binary search of
    the elements before it finds. *)
Fixpoint searchPlace (fuel : nat) (pivot : A) (run : list A) (left right : nat) : nat :=
  match fuel with
  | O => left
  | S fuel' =>
      if (left <? right)%nat then
        let mid := (left + Nat.div2 (right - left))%nat in
        match nth_error run mid with
        | Some m =>
            if (compare pivot m <? 0)%Z then searchPlace fuel' pivot run left mid
            else searchPlace fuel' pivot run (S mid) right
        | None => left
        end
      else left
  end.

Definition insertAt (k : nat) (x : A) (l : list A) : list A :=
  firstn k l ++ x :: skipn k l.

Definition binaryInsert (run : list A) (pivot : A) : list A :=
  insertAt (searchPlace (List.length run) pivot run 0 (List.length run)) pivot run.

Fixpoint takeRun (descending : bool) (prev : A) (l : list A) : list A * list A :=
  match l with
  | [] => ([], [])
  | x :: r =>
      if Bool.eqb (compare x prev <? 0)%Z descending then
        let (run, rest) := takeRun descending x r in (x :: run, rest)
      else ([], l)
  end.

Definition binaryInsertionSort (l : list A) : list A :=
  match l with
  | a0 :: a1 :: r =>
      let descending := (compare a1 a0 <? 0)%Z in
      let (run, rest) := takeRun descending a1 r in
      let first := if descending then rev (a0 :: a1 :: run) else a0 :: a1 :: run in
      fold_left binaryInsert rest first
  | _ => l
  end.

End Sort.

(** [Array.prototype.sort(comparefn)].  With a consistent comparator the
    result is the stable sorted order (the sort is stable since ECMAScript
    2019); with an inconsistent one ECMAScript leaves the order to the
    engine. *)
Definition sort {engine : Engine} {A : Type} (comparefn : A -> A -> option Z)
  (l : list A) : list A :=
  if consistentOn comparefn l then stableSort comparefn l
  else engineSort A comparefn l.

(** A relative index of [slice]: negative counts from the end. *)
Definition relativeIndex (len i : Z) : Z :=
  if (i <? 0)%Z then Z.max (len + i) 0 else Z.min i len.

(** [Array.prototype.slice(start, end)] *)
Definition slice {A : Type} (l : list A) (start end_ : Z) : list A :=
  let len := Z.of_nat (List.length l) in
  let k := relativeIndex len start in
  let final := relativeIndex len end_ in
  firstn (Z.to_nat (final - k)) (skipn (Z.to_nat k) l).

End JSArray.

(** ** Regular expressions

    The source builds one pattern, [\b(k1|...|kn)\b] with the flags [gi],
    from escaped keywords.  Patterns of that shape are read here: a group of
    alternatives, each a sequence of literal characters and identity
    escapes, between two word-boundary assertions. *)

Module JSRegExp.

(** SyntaxCharacter of the pattern grammar: [^ $ \ . * + ? ( ) [ ] { } |]. *)
Definition isSyntaxCharacter (c : codeunit) : bool :=
  (c =? 94) || (c =? 36) || (c =? 92) || (c =? 46) || (c =? 42) || (c =? 43)
  || (c =? 63) || (c =? 40) || (c =? 41) || (c =? 91) || (c =? 93)
  || (c =? 123) || (c =? 125) || (c =? 124).

Definition consChar (c : codeunit) (r : option (list jsstring)) : option (list jsstring) :=
  match r with
  | Some (a :: alts) => Some ((c :: a) :: alts)
  | _ => None
  end.

(** The alternatives of a group, up to the parenthesis that closes it and
    the final [\b].  A backslash before a syntax character is an identity
    escape; a bar starts the next alternative; any other syntax is outside
    the patterns read here ([None]). *)
Fixpoint parseDisjunction (s : jsstring) : option (list jsstring) :=
  match s with
  | [] => None
  | c :: r =>
      if c =? 92 then
        match r with
        | d :: r' => if isSyntaxCharacter d then consChar d (parseDisjunction r') else None
        | [] => None
        end
      else if c =? 124 then option_map (cons []) (parseDisjunction r)
      else if c =? 41 then (if eqbStr r (str "\b") then Some [[]] else None)
      else if isSyntaxCharacter c then None
      else consChar c (parseDisjunction r)
  end.

(** [new RegExp(source, "gi")] for a source [\b(...)\b]: its alternatives. *)
Definition parse (source : jsstring) : option (list jsstring) :=
  match source with
  | a :: b :: c :: body =>
      if (a =? 92) && (b =? 98) && (c =? 40) then parseDisjunction body else None
  | _ => None
  end.

Section Match.
Context {engine : Engine}.

(** Canonicalize of ECMAScript under the flag [i] without [u]: the upper
    case of the character when that is one code unit, except that no
    character outside ASCII is taken into ASCII. *)
Definition canonicalize (ch : codeunit) : codeunit :=
  if isAscii ch then asciiUpper ch
  else match unicodeUpper ch with
       | [cu] => if isAscii cu then ch else cu
       | _ => ch
       end.

Definition wordBefore (prev : option codeunit) : bool :=
  match prev with Some c => isWordChar c | None => false end.

Definition wordAt (s : jsstring) : bool :=
  match s with c :: _ => isWordChar c | [] => false end.

(** The assertion [\b] between the character [prev] and the text [s]. *)
Definition atBoundary (prev : option codeunit) (s : jsstring) : bool :=
  xorb (wordBefore prev) (wordAt s).

(** The literal [k] at the head of [s], compared under Canonicalize: the
    last character consumed and the rest of the text. *)
Fixpoint matchLiteral (k s : jsstring) (prev : option codeunit)
  : option (option codeunit * jsstring) :=
  match k with
  | [] => Some (prev, s)
  | a :: k' =>
      match s with
      | b :: s' =>
          if canonicalize a =? canonicalize b then matchLiteral k' s' (Some b) else None
      | [] => None
      end
  end.

(** The group followed by [\b]: the first alternative, in the order of the
    pattern, that matches and ends at a word boundary; its length. *)
Fixpoint tryAlternatives (alts : list jsstring) (prev : option codeunit) (s : jsstring)
  : option nat :=
  match alts with
  | [] => None
  | k :: rest =>
      match matchLiteral k s prev with
      | Some (prev', s') =>
          if atBoundary prev' s' then Some (List.length k) else tryAlternatives rest prev s
      | None => tryAlternatives rest prev s
      end
  end.

(** A match of the whole pattern that starts here. *)
Definition matchAt (alts : list jsstring) (prev : option codeunit) (s : jsstring)
  : option nat :=
  if atBoundary prev s then tryAlternatives alts prev s else None.

Definition marker : jsstring := str "**".

Definition closing (pending : nat) : jsstring :=
  match pending with O => marker | S _ => [] end.

(** [input.replace(regex, "**$1**")] with the flag [g], from left to right:
    [prev] is the character before the position, [s] the text from it, and
    [pending] the number of characters of the match in progress still to
    copy.  The group spans the whole match, so [$1] is the matched text.
    After a match the search goes on where the match ended, one character
    further when the match was empty. *)
Fixpoint replaceFrom (alts : list jsstring) (prev : option codeunit) (s : jsstring)
  (pending : nat) : jsstring :=
  match s with
  | [] =>
      match pending, matchAt alts prev [] with
      | O, Some _ => marker ++ marker
      | _, _ => []
      end
  | c :: r =>
      match pending with
      | S k => c :: closing k ++ replaceFrom alts (Some c) r k
      | O =>
          match matchAt alts prev s with
          | Some O => marker ++ marker ++ c :: replaceFrom alts (Some c) r 0
          | Some (S k) => marker ++ c :: closing k ++ replaceFrom alts (Some c) r k
          | None => c :: replaceFrom alts (Some c) r 0
          end
      end
  end.

Definition replaceAll (alts : list jsstring) (input : jsstring) : jsstring :=
  replaceFrom alts None input 0.

End Match.

End JSRegExp.

(** Case tables that stop at ASCII: the characters outside it have no case.
    The worked examples are run on them; on ASCII text every engine
    agrees with them.  This engine keeps to the stable insertion sort when
    the comparator is not consistent. *)
Definition asciiOnly : Engine.
Proof.
  refine {| unicodeLower := fun s => s;
            unicodeUpper := fun c => [c];
            engineSort := fun A comparefn l => JSArray.stableSort comparefn l;
            engineSort_permutes := _ |}.
  intros A comparefn l. induction l as [|x r IH]; simpl; [reflexivity|].
  transitivity (x :: JSArray.stableSort comparefn r); [|constructor; exact IH].
  generalize (JSArray.stableSort comparefn r). clear IH. intros m.
  induction m as [|y m IHm]; simpl; [reflexivity|].
  destruct (JSArray.sortsBefore comparefn x y); [reflexivity|].
  rewrite IHm. apply perm_swap.
Defined.

(** The same case tables, and binary insertion when the comparator is not
    consistent, as in V8. *)
Definition binaryInsertionEngine : Engine.
Proof.
  refine {| unicodeLower := fun s => s;
            unicodeUpper := fun c => [c];
            engineSort := fun A comparefn l => JSArray.binaryInsertionSort comparefn l;
            engineSort_permutes := _ |}.
  intros A comparefn l.
  assert (Hfold : forall rest first,
             Permutation (fold_left (JSArray.binaryInsert comparefn) rest first)
               (first ++ rest)).
  { induction rest as [|x rest IH]; intros first; simpl.
    - rewrite app_nil_r. reflexivity.
    - rewrite IH. unfold JSArray.binaryInsert, JSArray.insertAt.
      set (k := JSArray.searchPlace comparefn _ _ _ _ _).
      transitivity ((x :: first) ++ rest); [|apply Permutation_middle].
      apply Permutation_app_tail. rewrite <- Permutation_middle.
      rewrite firstn_skipn. reflexivity. }
  assert (Hrun : forall d m prev, fst (JSArray.takeRun comparefn d prev m)
                                  ++ snd (JSArray.takeRun comparefn d prev m) = m).
  { intros d m. induction m as [|x m IH]; intros prev; simpl; [reflexivity|].
    destruct (Bool.eqb _ d); [|reflexivity].
    specialize (IH x). destruct (JSArray.takeRun comparefn d x m) as [run rest].
    simpl in *. rewrite IH. reflexivity. }
  unfold JSArray.binaryInsertionSort.
  destruct l as [|a0 [|a1 r]]; try reflexivity.
  specialize (Hrun (JSArray.compare comparefn a1 a0 <? 0)%Z r a1).
  destruct (JSArray.takeRun comparefn _ a1 r) as [run rest]. simpl in Hrun.
  rewrite Hfold. rewrite <- Hrun.
  destruct (JSArray.compare comparefn a1 a0 <? 0)%Z.
  - rewrite <- Permutation_rev. reflexivity.
  - reflexivity.
Defined.

(** ** The component *)

Section KeywordExtractor.

Context {engine : Engine}.

(** A small list of common English stop-words to ignore. *)
Definition stopWords : list jsstring :=
  map str
    ["the"; "and"; "a"; "to"; "of"; "in"; "that"; "it"; "is"; "was";
     "for"; "on"; "with"; "as"; "by"; "at"; "from"; "or"; "an"; "be";
     "this"; "which"; "but"; "not"; "are"; "have"; "has"; "had"]%string.

(** [input.toLowerCase().split(/[^a-zA-Z0-9]+/).filter(Boolean)] *)
Definition words (input : jsstring) : list jsstring :=
  filter JSString.truthy (JSString.split (JSString.toLowerCase input)).

(** The body of the loop: [if (!stopWords.has(w)) freq[w] = (freq[w] || 0) + 1] *)
Definition countWord (freq : JSObject.object) (w : jsstring) : JSObject.object :=
  if has stopWords w then freq
  else JSObject.set freq w (JSObject.orZeroPlusOne (JSObject.get freq w)).

(** [for (const w of words) ...] from [freq = {}] *)
Definition countWords (ws : list jsstring) : JSObject.object :=
  fold_left countWord ws [].

(** [(a, b) => b[1] - a[1]] *)
Definition byFrequency (a b : jsstring * JSObject.value) : option Z :=
  JSObject.minus (snd b) (snd a).

(** [Object.entries(freq).sort(...).map(([word]) => word)], then
    [sorted.slice(0, n)] *)
Definition selectKeywords (freq : JSObject.object) (n : Z) : list jsstring :=
  let sorted := map fst (JSArray.sort byFrequency (JSObject.entries freq)) in
  JSArray.slice sorted 0 n.

Definition extractKeywords (input : jsstring) (n : Z) : list jsstring :=
  selectKeywords (countWords (words input)) n.

(** The class [[.*+?^${}()|[\]\\]] of the escaping step. *)
Definition isEscaped (c : codeunit) : bool :=
  (c =? 46) || (c =? 42) || (c =? 43) || (c =? 63) || (c =? 94) || (c =? 36)
  || (c =? 123) || (c =? 125) || (c =? 40) || (c =? 41) || (c =? 124)
  || (c =? 91) || (c =? 93) || (c =? 92).

(** [k.replace(/[.*+?^${}()|[\]\\]/g, "\\$&")]: a backslash before each
    character of the class. *)
Definition escapeKeyword (k : jsstring) : jsstring :=
  flat_map (fun c => if isEscaped c then [92; c] else [c]) k.

(** The source text of the pattern: [`\\b(${escaped.join("|")})\\b`] *)
Definition patternSource (keywords : list jsstring) : jsstring :=
  str "\b(" ++ JSString.join (str "|") (map escapeKeyword keywords) ++ str ")\b".

(** [highlight]; [None] is the SyntaxError of [new RegExp]. *)
Definition highlight (input : jsstring) (keywords : list jsstring) : option jsstring :=
  match JSRegExp.parse (patternSource keywords) with
  | Some alts => Some (JSRegExp.replaceAll alts input)
  | None => None
  end.

(** The state of the component: [text], [keywordsCount], [highlighted].
    The count is the number the input field holds, taken as an integer. *)
Record state : Type := mkState {
  text : jsstring;
  keywordsCount : Z;
  highlighted : jsstring
}.

Definition setHighlighted (st : state) (h : jsstring) : state :=
  {| text := text st; keywordsCount := keywordsCount st; highlighted := h |}.

(** [handleSubmit]; [None] is an exception that leaves the handler. *)
Definition handleSubmit (st : state) : option state :=
  if negb (JSString.truthy (JSString.trim (text st))) then
    Some (setHighlighted st [])
  else
    let kws := extractKeywords (text st) (keywordsCount st) in
    match highlight (text st) kws with
    | Some h => Some (setHighlighted st h)
    | None => None
    end.

(** The result panel, [{highlighted && (... <pre>{highlighted}</pre> ...)}]:
    the text it shows, [None] when it is not rendered. *)
Definition resultPanel (st : state) : option jsstring :=
  if JSString.truthy (highlighted st) then Some (highlighted st) else None.

(** The state the component starts in: [useState("")], [useState(5)],
    [useState("")]. *)
Definition initialState : state := mkState [] 5%Z [].

(** [setText] and [setKeywordsCount], the other two state setters. *)
Definition setText (st : state) (v : jsstring) : state :=
  {| text := v; keywordsCount := keywordsCount st; highlighted := highlighted st |}.

Definition setKeywordsCount (st : state) (n : Z) : state :=
  {| text := text st; keywordsCount := n; highlighted := highlighted st |}.

(** What the user does: type in the text area ([onChange] with the new
    value), change the count field ([onChange], with [Number(e.target.value)]
    taken as an integer), submit the form. *)
Inductive event : Type :=
| TextChanged (value : jsstring)
| CountChanged (value : Z)
| Submitted.

Definition handleEvent (st : state) (ev : event) : option state :=
  match ev with
  | TextChanged v => Some (setText st v)
  | CountChanged n => Some (setKeywordsCount st n)
  | Submitted => handleSubmit st
  end.

(** The handlers run one after the other, each on the state the previous
    one left. *)
Fixpoint run (st : state) (evs : list event) : option state :=
  match evs with
  | [] => Some st
  | ev :: rest =>
      match handleEvent st ev with
      | Some st' => run st' rest
      | None => None
      end
  end.

Definition isEdit (ev : event) : bool :=
  match ev with Submitted => false | _ => true end.

(** The alternatives [new RegExp] reads back from [patternSource]: the
    keywords themselves, and one empty alternative when there is none, since
    [[].join("|")] is the empty string and the group [()] is left empty. *)
Definition alternativesOf (keywords : list jsstring) : list jsstring :=
  match keywords with
  | [] => [[]]
  | _ => keywords
  end.

End KeywordExtractor.

(** ** The vocabulary of the specification *)

(** The number of times the token [w] occurs among the tokens [ws]. *)
Definition occurrences (w : jsstring) (ws : list jsstring) : nat :=
  List.length (filter (eqbStr w) ws).

(** A value of [freq] that is a count. *)
Definition isNumber (v : JSObject.value) : Prop := exists m, v = JSObject.Number m.

(** The count an entry of [freq] holds, 0 when it holds no number. *)
Definition frequency (e : jsstring * JSObject.value) : Z :=
  match JSObject.toNumber (snd e) with
  | Some z => z
  | None => 0%Z
  end.

(** The comparator of the source on entries that hold numbers. *)
Definition byCount (a b : jsstring * JSObject.value) : option Z :=
  Some (frequency b - frequency a)%Z.

(** More frequent entries first. *)
Definition descending (a b : jsstring * JSObject.value) : Prop :=
  (frequency b <= frequency a)%Z.

(** The tokens that are counted: those that are no stop-words. *)
Definition counted (ws : list jsstring) : list jsstring :=
  filter (fun w => negb (has stopWords w)) ws.

(** The distinct tokens of [ws], each at the place of its first
    occurrence. *)
Fixpoint firstOccurrences (ws : list jsstring) : list jsstring :=
  match ws with
  | [] => []
  | w :: r => w :: filter (fun x => negb (eqbStr x w)) (firstOccurrences r)
  end.

(** [output] is [input] with markers put in: no character of the input is
    changed, dropped or moved. *)
Inductive InsertsMarkers : jsstring -> jsstring -> Prop :=
| InsertsMarkers_nil : InsertsMarkers [] []
| InsertsMarkers_char (c : codeunit) (s t : jsstring) :
    InsertsMarkers s t -> InsertsMarkers (c :: s) (c :: t)
| InsertsMarkers_marker (s t : jsstring) :
    InsertsMarkers s t -> InsertsMarkers s (42 :: 42 :: t).

(** [a] comes before [b] in the list [l]. *)
Definition precedes {A : Type} (a b : A) (l : list A) : Prop :=
  exists l1 l2 l3, l = l1 ++ a :: l2 ++ b :: l3.

(** A keyword as the tokenizer produces them: a non-empty run of ASCII
    letters and digits. *)
Definition isKeyword (k : jsstring) : bool :=
  JSString.truthy k && forallb isAlnum k.

(** Two strings that differ at most in the case of their ASCII letters. *)
Definition equalIgnoringCase (a b : jsstring) : bool :=
  eqbStr (map asciiLower a) (map asciiLower b).

(** The text cut into its maximal runs of word characters ([true]) and of
    other characters ([false]). *)
Fixpoint segments (s : jsstring) : list (bool * jsstring) :=
  match s with
  | [] => []
  | c :: r =>
      match segments r with
      | (b, seg) :: rest =>
          if Bool.eqb b (isWordChar c) then (b, c :: seg) :: rest
          else (isWordChar c, [c]) :: (b, seg) :: rest
      | [] => [(isWordChar c, [c])]
      end
  end.

(** A whole word that is one of the keywords, whatever its case, between two
    markers; any other run as it is. *)
Definition wrapWord (keywords : list jsstring) (seg : bool * jsstring) : jsstring :=
  if fst seg && existsb (equalIgnoringCase (snd seg)) keywords
  then str "**" ++ snd seg ++ str "**"
  else snd seg.

(** HighlightedText as the specification words it: the text, with every
    whole-word, case-insensitive occurrence of a keyword wrapped in a pair
    of markers and everything else unchanged.  It is written from the
    specification, to be compared with [highlight]. *)
Definition wholeWordHighlight (input : jsstring) (keywords : list jsstring) : jsstring :=
  flat_map (wrapWord keywords) (segments input).

(** * Properties of the built-in operations and of the counting loop *)

(** ** Strings and character classes *)

Lemma eqbStr_eq (a b : jsstring) : eqbStr a b = true <-> a = b.
Proof.
  revert b; induction a as [|x a IH]; intros [|y b]; simpl; split; try congruence; auto.
  - rewrite andb_true_iff, N.eqb_eq, IH. intros [-> ->]; reflexivity.
  - intros E; injection E as -> ->. rewrite N.eqb_refl. simpl. apply IH; reflexivity.
Qed.

Lemma eqbStr_refl (a : jsstring) : eqbStr a a = true.
Proof. apply eqbStr_eq; reflexivity. Qed.

Lemma eqbStr_neq (a b : jsstring) : eqbStr a b = false <-> a <> b.
Proof.
  rewrite <- eqbStr_eq. destruct (eqbStr a b); split; congruence.
Qed.

Lemma has_In (l : list jsstring) (w : jsstring) : has l w = true <-> In w l.
Proof.
  unfold has. rewrite existsb_exists. split.
  - intros [x [Hin E]]. apply eqbStr_eq in E. subst; assumption.
  - intros Hin. exists w. split; [assumption | apply eqbStr_refl].
Qed.

Lemma isUpper_true (c : codeunit) : isUpper c = true <-> 65 <= c <= 90.
Proof. unfold isUpper. rewrite andb_true_iff, !N.leb_le. reflexivity. Qed.

Lemma isUpper_false (c : codeunit) : isUpper c = false <-> c < 65 \/ 90 < c.
Proof. unfold isUpper. rewrite andb_false_iff, !N.leb_gt. reflexivity. Qed.

Lemma isLower_true (c : codeunit) : isLower c = true <-> 97 <= c <= 122.
Proof. unfold isLower. rewrite andb_true_iff, !N.leb_le. reflexivity. Qed.

Lemma isLower_false (c : codeunit) : isLower c = false <-> c < 97 \/ 122 < c.
Proof. unfold isLower. rewrite andb_false_iff, !N.leb_gt. reflexivity. Qed.

Lemma isDigit_true (c : codeunit) : isDigit c = true <-> 48 <= c <= 57.
Proof. unfold isDigit. rewrite andb_true_iff, !N.leb_le. reflexivity. Qed.

Lemma isDigit_false (c : codeunit) : isDigit c = false <-> c < 48 \/ 57 < c.
Proof. unfold isDigit. rewrite andb_false_iff, !N.leb_gt. reflexivity. Qed.

Lemma isAscii_true (c : codeunit) : isAscii c = true <-> c < 128.
Proof. unfold isAscii. apply N.ltb_lt. Qed.

Lemma isAscii_false (c : codeunit) : isAscii c = false <-> 128 <= c.
Proof. unfold isAscii. apply N.ltb_ge. Qed.

Lemma isAlnum_true (c : codeunit) :
  isAlnum c = true <-> 97 <= c <= 122 \/ 65 <= c <= 90 \/ 48 <= c <= 57.
Proof.
  unfold isAlnum. rewrite !orb_true_iff, isLower_true, isUpper_true, isDigit_true.
  tauto.
Qed.

(** Turns the tests on characters among the hypotheses into inequalities. *)
Ltac class_facts :=
  repeat match goal with
    | H : isUpper _ = true |- _ => apply isUpper_true in H
    | H : isUpper _ = false |- _ => apply isUpper_false in H
    | H : isLower _ = true |- _ => apply isLower_true in H
    | H : isLower _ = false |- _ => apply isLower_false in H
    | H : isDigit _ = true |- _ => apply isDigit_true in H
    | H : isDigit _ = false |- _ => apply isDigit_false in H
    | H : isAscii _ = true |- _ => apply isAscii_true in H
    | H : isAscii _ = false |- _ => apply isAscii_false in H
    | H : isAlnum _ = true |- _ => apply isAlnum_true in H
    end.

Lemma alnum_word (c : codeunit) : isAlnum c = true -> isWordChar c = true.
Proof. unfold isWordChar. intros ->. reflexivity. Qed.

Lemma upper_eq_lower_eq (a b : codeunit) :
  asciiUpper a = asciiUpper b <-> asciiLower a = asciiLower b.
Proof.
  unfold asciiUpper, asciiLower.
  destruct (isLower a) eqn:La, (isUpper a) eqn:Ua, (isLower b) eqn:Lb,
    (isUpper b) eqn:Ub; class_facts; lia.
Qed.

Lemma lower_eq_alnum (a b : codeunit) :
  isAlnum a = true -> asciiLower a = asciiLower b -> isAlnum b = true.
Proof.
  intros Ha. rewrite isAlnum_true. unfold asciiLower.
  destruct (isUpper a) eqn:Ua, (isUpper b) eqn:Ub; class_facts; lia.
Qed.

(** ** [trim] *)

Lemma dropWhile_nil_iff (p : codeunit -> bool) (s : jsstring) :
  JSString.dropWhile p s = [] <-> forallb p s = true.
Proof.
  induction s as [|c r IH]; simpl.
  - split; reflexivity.
  - destruct (p c); simpl; [exact IH | split; discriminate].
Qed.

Lemma forallb_rev {A : Type} (p : A -> bool) (l : list A) :
  forallb p (rev l) = forallb p l.
Proof.
  induction l as [|x l IH]; simpl; [reflexivity|].
  rewrite forallb_app, IH. simpl. rewrite andb_true_r. apply andb_comm.
Qed.

Lemma dropWhile_all (p : codeunit -> bool) (s : jsstring) :
  forallb p s = true -> JSString.dropWhile p s = [].
Proof. apply dropWhile_nil_iff. Qed.

Lemma dropWhile_head (p : codeunit -> bool) (s : jsstring) c r :
  JSString.dropWhile p s = c :: r -> p c = false.
Proof.
  induction s as [|d s IH]; simpl; [discriminate|].
  destruct (p d) eqn:E; [exact IH|]. intros H; injection H as -> _. exact E.
Qed.

(** The trimmed text is empty exactly when the text is white space only. *)
Lemma trim_empty_iff (s : jsstring) :
  JSString.trim s = [] <-> forallb isWhiteSpace s = true.
Proof.
  unfold JSString.trim, JSString.trimEnd, JSString.trimStart. split.
  - intros H. apply dropWhile_nil_iff.
    destruct (JSString.dropWhile isWhiteSpace s) as [|c r] eqn:E; [reflexivity|].
    exfalso. apply dropWhile_head in E.
    assert (Hrev : JSString.dropWhile isWhiteSpace (rev (c :: r)) = []).
    { apply (f_equal (@rev codeunit)) in H. rewrite rev_involutive in H. exact H. }
    apply dropWhile_nil_iff in Hrev. rewrite forallb_rev in Hrev. simpl in Hrev.
    rewrite E in Hrev. discriminate.
  - intros H. rewrite (dropWhile_all _ _ H). reflexivity.
Qed.

(** ** [split] *)

Lemma split_pieces (s : jsstring) :
  forall p, In p (JSString.split s) ->
    forallb isAlnum p = true /\ (forall c, In c p -> In c s).
Proof.
  induction s as [|c r IH]; intros p Hp.
  - destruct Hp as [<- | []]. split; [reflexivity | intros c []].
  - simpl in Hp. destruct (isAlnum c) eqn:Hc.
    + destruct (JSString.split r) as [|q qs].
      * destruct Hp as [<- | []]. simpl. rewrite Hc. split; [reflexivity|].
        intros d [<- | []]. left; reflexivity.
      * destruct Hp as [<- | Hp].
        -- destruct (IH q (or_introl eq_refl)) as [H1 H2]. simpl.
           rewrite Hc, H1. split; [reflexivity|].
           intros d [<- | Hd]; [left; reflexivity | right; apply H2, Hd].
        -- destruct (IH p (or_intror Hp)) as [H1 H2]. split; [exact H1|].
           intros d Hd. right. apply H2, Hd.
    + assert (Hor : p = [] \/ In p (JSString.split r)).
      { destruct r as [|d r']; [destruct Hp as [<- | Hp]; [left; reflexivity | right; exact Hp]|].
        destruct (isAlnum d); [destruct Hp as [<- | Hp]; [left; reflexivity | right; exact Hp]|].
        right; exact Hp. }
      destruct Hor as [-> | Hin]; [split; [reflexivity | intros d []]|].
      destruct (IH p Hin) as [H1 H2]. split; [exact H1|].
      intros d Hd. right. apply H2, Hd.
Qed.

(** ** The pattern is read back as its keywords *)

Lemma isEscaped_syntax (c : codeunit) : isEscaped c = JSRegExp.isSyntaxCharacter c.
Proof.
  unfold isEscaped, JSRegExp.isSyntaxCharacter.
  repeat match goal with |- context [?x =? ?y] => destruct (N.eqb_spec x y); subst end;
    reflexivity.
Qed.

Lemma parse_escaped (k rest a : jsstring) (alts : list jsstring) :
  JSRegExp.parseDisjunction rest = Some (a :: alts) ->
  JSRegExp.parseDisjunction (escapeKeyword k ++ rest) = Some ((k ++ a) :: alts).
Proof.
  intros Hrest. induction k as [|c k IH]; [exact Hrest|].
  unfold escapeKeyword in *. simpl flat_map. destruct (isEscaped c) eqn:E.
  - simpl. rewrite <- isEscaped_syntax, E, IH. reflexivity.
  - pose proof E as E'. rewrite isEscaped_syntax in E'.
    unfold isEscaped in E. repeat (apply orb_false_iff in E; destruct E as [E ?]).
    simpl. repeat match goal with H : (c =? _) = false |- _ => rewrite H; clear H end.
    rewrite E', IH. reflexivity.
Qed.

Lemma parse_joined (keywords : list jsstring) :
  JSRegExp.parseDisjunction
    (JSString.join (str "|") (map escapeKeyword keywords) ++ str ")\b")
  = Some (alternativesOf keywords).
Proof.
  induction keywords as [|k [|k2 r] IH].
  - reflexivity.
  - simpl. rewrite (parse_escaped k _ [] []); [rewrite app_nil_r|]; reflexivity.
  - change (JSString.join (str "|") (map escapeKeyword (k :: k2 :: r)))
      with (escapeKeyword k ++ str "|" ++
            JSString.join (str "|") (map escapeKeyword (k2 :: r))).
    rewrite <- !app_assoc.
    rewrite (parse_escaped k _ [] (k2 :: r)); [rewrite app_nil_r; reflexivity|].
    change (str "|" ++ ?x) with (124 :: x).
    cbn [JSRegExp.parseDisjunction]. cbn [N.eqb Pos.eqb].
    rewrite IH. reflexivity.
Qed.

Lemma parse_patternSource (keywords : list jsstring) :
  JSRegExp.parse (patternSource keywords) = Some (alternativesOf keywords).
Proof.
  unfold patternSource. change (str "\b(" ++ ?x) with (92 :: 98 :: 40 :: x).
  cbn [JSRegExp.parse]. cbn [N.eqb Pos.eqb andb]. apply parse_joined.
Qed.

(** ** The runs of the specification *)

Lemma isKeyword_true (k : jsstring) :
  isKeyword k = true <-> k <> [] /\ forallb isAlnum k = true.
Proof.
  unfold isKeyword. rewrite andb_true_iff. destruct k; simpl; split;
    intros [H1 H2]; split; congruence.
Qed.

Lemma equalIgnoringCase_length (w k : jsstring) :
  equalIgnoringCase w k = true -> List.length k = List.length w.
Proof.
  unfold equalIgnoringCase. intros H. apply eqbStr_eq in H.
  apply (f_equal (@List.length codeunit)) in H. rewrite !length_map in H.
  symmetry; exact H.
Qed.

(** A text is a run of word characters followed by a text that does not
    start with one. *)
Lemma word_span (s : jsstring) :
  exists w rest,
    s = w ++ rest /\ forallb isWordChar w = true /\ JSRegExp.wordAt rest = false.
Proof.
  induction s as [|c r IH].
  - exists [], []. repeat split.
  - destruct (isWordChar c) eqn:Hc.
    + destruct IH as [w [rest [-> [Hw Hrest]]]].
      exists (c :: w), rest. simpl. rewrite Hc, Hw. repeat split. exact Hrest.
    + exists [], (c :: r). simpl. repeat split. exact Hc.
Qed.

Lemma segments_head (s : jsstring) (b : bool) (seg : jsstring)
  (tl : list (bool * jsstring)) :
  segments s = (b, seg) :: tl -> b = JSRegExp.wordAt s.
Proof.
  destruct s as [|c r]; simpl; [discriminate|].
  destruct (segments r) as [|[b' seg'] rest'].
  - intros H; injection H as <- _ _. reflexivity.
  - destruct (Bool.eqb b' (isWordChar c)) eqn:E; intros H; injection H as <- _ _.
    + apply eqb_prop in E. exact E.
    + reflexivity.
Qed.

Lemma segments_word_run (w rest : jsstring) :
  w <> [] -> forallb isWordChar w = true -> JSRegExp.wordAt rest = false ->
  segments (w ++ rest) = (true, w) :: segments rest.
Proof.
  intros Hne Hw Hrest. induction w as [|c w IH]; [congruence|].
  simpl in Hw. apply andb_true_iff in Hw. destruct Hw as [Hc Hw].
  destruct w as [|c2 w].
  - simpl. destruct (segments rest) as [|[b seg] tl] eqn:E.
    + rewrite Hc. reflexivity.
    + apply segments_head in E. rewrite Hrest in E. subst b.
      rewrite Hc. reflexivity.
  - change ((c :: c2 :: w) ++ rest) with (c :: ((c2 :: w) ++ rest)).
    cbn [segments]. rewrite IH by (congruence || assumption).
    rewrite Hc. reflexivity.
Qed.

Lemma highlight_spec_word_run (keywords : list jsstring) (w rest : jsstring) :
  w <> [] -> forallb isWordChar w = true -> JSRegExp.wordAt rest = false ->
  wholeWordHighlight (w ++ rest) keywords
  = (if existsb (equalIgnoringCase w) keywords
     then JSRegExp.marker ++ w ++ JSRegExp.marker else w)
    ++ wholeWordHighlight rest keywords.
Proof.
  intros Hne Hw Hrest. unfold wholeWordHighlight.
  rewrite (segments_word_run w rest Hne Hw Hrest). reflexivity.
Qed.

Lemma highlight_spec_other (keywords : list jsstring) (c : codeunit) (r : jsstring) :
  isWordChar c = false ->
  wholeWordHighlight (c :: r) keywords = c :: wholeWordHighlight r keywords.
Proof.
  intros Hc. unfold wholeWordHighlight. simpl.
  destruct (segments r) as [|[b seg] tl].
  - rewrite Hc. reflexivity.
  - rewrite Hc. destruct b; reflexivity.
Qed.

(** Each run is non-empty and of one kind, and two runs that follow each
    other are of different kinds: the runs are maximal. *)
Lemma segments_runs (s : jsstring) :
  Forall (fun seg => snd seg <> []
                     /\ forallb (fun c => Bool.eqb (isWordChar c) (fst seg)) (snd seg)
                        = true)
    (segments s).
Proof.
  induction s as [|c r IH]; simpl; [constructor|].
  destruct (segments r) as [|[b seg] tl].
  - repeat constructor; simpl; [discriminate | rewrite eqb_reflx; reflexivity].
  - inversion IH as [|? ? [Hne Hall] Htl]; subst. simpl in *.
    destruct (Bool.eqb b (isWordChar c)) eqn:Eb.
    + constructor; [|exact Htl]. simpl. split; [discriminate|].
      apply eqb_prop in Eb. subst b. rewrite eqb_reflx. exact Hall.
    + constructor; [|constructor; [split; assumption | exact Htl]].
      simpl. split; [discriminate | rewrite eqb_reflx; reflexivity].
Qed.

Lemma segments_alternate (s : jsstring) (l1 l2 : list (bool * jsstring))
  (x y : bool * jsstring) :
  segments s = l1 ++ x :: y :: l2 -> fst x <> fst y.
Proof.
  revert l1 x y l2. induction s as [|c r IH]; intros l1 x y l2 H; simpl in H.
  - destruct l1; discriminate.
  - destruct (segments r) as [|[b seg] tl] eqn:Er.
    + destruct l1 as [|? [|? ?]]; discriminate.
    + destruct (Bool.eqb b (isWordChar c)) eqn:Eb.
      * destruct l1 as [|z l1]; simpl in H.
        -- injection H as <- Htl. simpl. apply (IH [] (b, seg) y l2). rewrite Htl.
           reflexivity.
        -- injection H as _ Htl. apply (IH ((b, seg) :: l1) x y l2).
           rewrite Htl. reflexivity.
      * destruct l1 as [|z l1]; simpl in H.
        -- injection H as <- <- _. simpl. intros Heq. rewrite Heq in Eb.
           rewrite eqb_reflx in Eb. discriminate.
        -- injection H as _ Htl. apply (IH l1 x y l2). exact Htl.
Qed.

(** The runs, put back together, are the text. *)
Lemma segments_concat (s : jsstring) : flat_map snd (segments s) = s.
Proof.
  induction s as [|c r IH]; [reflexivity|].
  simpl. destruct (segments r) as [|[b seg] tl].
  - simpl in *. rewrite <- IH. reflexivity.
  - destruct (Bool.eqb b (isWordChar c)); simpl in *; rewrite <- IH; reflexivity.
Qed.

(** ** The frequency object *)

Lemma getOwn_set (o : JSObject.object) (k k' : jsstring) (v : JSObject.value) :
  JSObject.getOwn (JSObject.set o k v) k'
  = if eqbStr k' k then Some v else JSObject.getOwn o k'.
Proof.
  induction o as [|[k0 v0] r IH]; simpl.
  - destruct (eqbStr k' k); reflexivity.
  - destruct (eqbStr k k0) eqn:E; simpl.
    + apply eqbStr_eq in E. subst k0. destruct (eqbStr k' k); reflexivity.
    + destruct (eqbStr k' k0) eqn:E'.
      * apply eqbStr_eq in E'. subst k0.
        replace (eqbStr k' k) with false; [reflexivity|].
        symmetry. apply eqbStr_neq. apply eqbStr_neq in E. congruence.
      * exact IH.
Qed.

Lemma getOwn_None (o : JSObject.object) (k : jsstring) :
  JSObject.getOwn o k = None <-> ~ In k (map fst o).
Proof.
  induction o as [|[k0 v0] r IH]; simpl.
  - tauto.
  - destruct (eqbStr k k0) eqn:E.
    + apply eqbStr_eq in E. subst. split; [discriminate | tauto].
    + apply eqbStr_neq in E. rewrite IH. split; [intros H [H'|H']; congruence | tauto].
Qed.

Lemma getOwn_In (o : JSObject.object) (k : jsstring) (v : JSObject.value) :
  NoDup (map fst o) -> In (k, v) o -> JSObject.getOwn o k = Some v.
Proof.
  induction o as [|[k0 v0] r IH]; simpl; [tauto|].
  intros Hnd [H|H].
  - injection H as -> ->. rewrite eqbStr_refl. reflexivity.
  - inversion Hnd as [|? ? Hnotin Hnd']; subst.
    destruct (eqbStr k k0) eqn:E.
    + apply eqbStr_eq in E. subst k0. exfalso. apply Hnotin.
      apply (in_map fst) in H. exact H.
    + apply IH; assumption.
Qed.

(** Writing a property keeps the keys, or adds the new key after them. *)
Lemma set_keys (o : JSObject.object) (k : jsstring) (v : JSObject.value) :
  map fst (JSObject.set o k v)
  = if has (map fst o) k then map fst o else map fst o ++ [k].
Proof.
  induction o as [|[k0 v0] r IH]; [reflexivity|].
  unfold has in *. simpl. destruct (eqbStr k k0) eqn:E; simpl.
  - reflexivity.
  - rewrite IH. destruct (existsb (eqbStr k) (map fst r)); reflexivity.
Qed.

Lemma set_keys_NoDup (o : JSObject.object) (k : jsstring) (v : JSObject.value) :
  NoDup (map fst o) -> NoDup (map fst (JSObject.set o k v)).
Proof.
  intros Hnd. rewrite set_keys. destruct (has (map fst o) k) eqn:E; [assumption|].
  assert (Hnot : ~ In k (map fst o)).
  { intros Hin. apply has_In in Hin. congruence. }
  apply NoDup_app; [assumption | repeat constructor; simpl; tauto |].
  intros x Hx [<-|[]]. tauto.
Qed.

Lemma set_keys_In (o : JSObject.object) (k k' : jsstring) (v : JSObject.value) :
  In k' (map fst (JSObject.set o k v)) -> In k' (map fst o) \/ k' = k.
Proof.
  rewrite set_keys. destruct (has (map fst o) k); [tauto|].
  rewrite in_app_iff. simpl. intuition.
Qed.

Lemma set_values (o : JSObject.object) (k : jsstring) (v : JSObject.value)
  (P : JSObject.value -> Prop) :
  P v -> Forall (fun e => P (snd e)) o ->
  Forall (fun e => P (snd e)) (JSObject.set o k v).
Proof.
  intros Hv Ho. induction o as [|[k0 v0] r IH]; simpl.
  - repeat constructor. exact Hv.
  - inversion Ho as [|? ? H0 Hr]; subst.
    destruct (eqbStr k k0); constructor; auto.
Qed.

(** *** Invariants of the counting loop *)

Lemma countWords_NoDup (ws : list jsstring) :
  forall o, NoDup (map fst o) -> NoDup (map fst (fold_left countWord ws o)).
Proof.
  induction ws as [|w ws IH]; intros o Ho; [exact Ho|].
  simpl. apply IH. unfold countWord.
  destruct (has stopWords w); [exact Ho | apply set_keys_NoDup, Ho].
Qed.

Lemma countWords_keys (ws : list jsstring) :
  forall o k,
    In k (map fst (fold_left countWord ws o)) ->
    In k (map fst o) \/ (In k ws /\ has stopWords k = false).
Proof.
  induction ws as [|w ws IH]; intros o k Hk; [left; exact Hk|].
  simpl in Hk. apply IH in Hk. destruct Hk as [Hk | [Hk Hs]].
  - unfold countWord in Hk. destruct (has stopWords w) eqn:E; [left; exact Hk|].
    apply set_keys_In in Hk. destruct Hk as [Hk | ->]; [left; exact Hk|].
    right. split; [left; reflexivity | exact E].
  - right. split; [right; exact Hk | exact Hs].
Qed.

(** Without the word [constructor], every value of [freq] is a number. *)
Lemma countWords_numbers (ws : list jsstring) :
  ~ In (str "constructor") ws ->
  forall o, Forall (fun e => isNumber (snd e)) o ->
    Forall (fun e => isNumber (snd e)) (fold_left countWord ws o).
Proof.
  induction ws as [|w ws IH]; intros Hc o Ho; [exact Ho|].
  simpl. apply IH; [simpl in Hc; tauto|].
  unfold countWord. destruct (has stopWords w); [exact Ho|].
  apply set_values; [|exact Ho].
  unfold JSObject.get. destruct (JSObject.getOwn o w) as [v|] eqn:E.
  - assert (Hv : isNumber v).
    { clear - E Ho. induction o as [|[k0 v0] r IH]; simpl in E; [discriminate|].
      inversion Ho as [|? ? H0 Hr]; subst.
      destruct (eqbStr w k0); [injection E as <-; exact H0 | auto]. }
    destruct Hv as [m ->]. exists (S m). reflexivity.
  - unfold JSObject.prototypeGet.
    replace (eqbStr w (str "constructor")) with false; [exists 1%nat; reflexivity|].
    symmetry. apply eqbStr_neq. intros ->. apply Hc. left; reflexivity.
Qed.

Lemma occurrences_cons (w x : jsstring) (ws : list jsstring) :
  occurrences w (x :: ws)
  = ((if eqbStr w x then 1 else 0) + occurrences w ws)%nat.
Proof. unfold occurrences. simpl. destruct (eqbStr w x); reflexivity. Qed.

Lemma countWord_other (o : JSObject.object) (w x : jsstring) :
  eqbStr w x = false -> JSObject.getOwn (countWord o x) w = JSObject.getOwn o w.
Proof.
  intros E. unfold countWord. destruct (has stopWords x); [reflexivity|].
  rewrite getOwn_set, E. reflexivity.
Qed.

(** A token that is counted already is incremented at each occurrence. *)
Lemma countWords_increments (w : jsstring) (ws : list jsstring) :
  has stopWords w = false ->
  forall o m,
    JSObject.getOwn o w = Some (JSObject.Number m) ->
    JSObject.getOwn (fold_left countWord ws o) w
    = Some (JSObject.Number (m + occurrences w ws)).
Proof.
  intros Hs. induction ws as [|x ws IH]; intros o m Ho.
  - simpl. rewrite Nat.add_0_r. exact Ho.
  - simpl fold_left. rewrite occurrences_cons. destruct (eqbStr w x) eqn:E.
    + apply eqbStr_eq in E. subst x.
      rewrite (IH (countWord o w) (S m)); [f_equal; f_equal; lia|].
      unfold countWord. rewrite Hs, getOwn_set, eqbStr_refl.
      unfold JSObject.get. rewrite Ho. reflexivity.
    + rewrite (IH (countWord o x) m); [reflexivity|].
      rewrite countWord_other; assumption.
Qed.

(** A token other than [constructor] that is no stop-word is counted from 1:
    [freq] holds the number of its occurrences, and no property for a token
    that does not occur. *)
Lemma countWords_counts (w : jsstring) (ws : list jsstring) :
  has stopWords w = false ->
  w <> str "constructor" ->
  forall o,
    JSObject.getOwn o w = None ->
    JSObject.getOwn (fold_left countWord ws o) w
    = match occurrences w ws with
      | O => None
      | S m => Some (JSObject.Number (S m))
      end.
Proof.
  intros Hs Hc. induction ws as [|x ws IH]; intros o Ho.
  - exact Ho.
  - simpl fold_left. rewrite occurrences_cons. destruct (eqbStr w x) eqn:E.
    + apply eqbStr_eq in E. subst x.
      rewrite (countWords_increments w ws Hs (countWord o w) 1); [reflexivity|].
      unfold countWord. rewrite Hs, getOwn_set, eqbStr_refl.
      unfold JSObject.get, JSObject.prototypeGet. rewrite Ho.
      replace (eqbStr w (str "constructor")) with false; [reflexivity|].
      symmetry. apply eqbStr_neq, Hc.
    + simpl. apply IH. rewrite countWord_other; assumption.
Qed.

(** *** The keys of [freq] are created in the order of the first occurrences *)

Lemma has_app (l : list jsstring) (w x : jsstring) :
  has (l ++ [w]) x = has l x || eqbStr x w.
Proof.
  unfold has. rewrite existsb_app. simpl. rewrite orb_false_r. reflexivity.
Qed.

Lemma filter_filter {A : Type} (p q : A -> bool) (l : list A) :
  filter p (filter q l) = filter (fun x => q x && p x) l.
Proof.
  induction l as [|x l IH]; simpl; [reflexivity|].
  destruct (q x); simpl; [destruct (p x); rewrite IH; reflexivity | exact IH].
Qed.

Lemma counted_cons (w : jsstring) (r : list jsstring) :
  counted (w :: r) = if has stopWords w then counted r else w :: counted r.
Proof. unfold counted. cbn [filter]. destruct (has stopWords w); reflexivity. Qed.

Lemma countWords_key_order (ws : list jsstring) :
  forall o,
    map fst (fold_left countWord ws o)
    = map fst o
      ++ filter (fun w => negb (has (map fst o) w)) (firstOccurrences (counted ws)).
Proof.
  induction ws as [|w r IH]; intros o.
  - simpl. rewrite app_nil_r. reflexivity.
  - cbn [fold_left]. rewrite IH, counted_cons. unfold countWord.
    destruct (has stopWords w) eqn:Hs; [reflexivity|].
    rewrite set_keys. cbn [firstOccurrences filter].
    destruct (has (map fst o) w) eqn:Hw; cbn [negb].
    + f_equal. rewrite filter_filter. apply filter_ext_in. intros x _.
      destruct (eqbStr x w) eqn:Ex; simpl; [|reflexivity].
      apply eqbStr_eq in Ex. subst x. rewrite Hw. reflexivity.
    + rewrite <- app_assoc. simpl app. f_equal. f_equal.
      rewrite filter_filter. apply filter_ext. intros x.
      rewrite has_app, negb_orb. apply andb_comm.
Qed.

(** [freq] has one key for each counted token, in the order in which the
    tokens first occur. *)
Lemma countWords_first_occurrences (ws : list jsstring) :
  map fst (countWords ws) = firstOccurrences (counted ws).
Proof.
  unfold countWords. rewrite countWords_key_order. simpl.
  induction (firstOccurrences (counted ws)) as [|x l IH]; simpl; congruence.
Qed.

(** ** [Object.entries], [sort] and [slice] *)

Lemma insertIndex_perm (e : N * (jsstring * JSObject.value))
  (l : list (N * (jsstring * JSObject.value))) :
  Permutation (JSObject.insertIndex e l) (e :: l).
Proof.
  induction l as [|e' r IH]; simpl; [reflexivity|].
  destruct (fst e <=? fst e'); [reflexivity|].
  rewrite IH. apply perm_swap.
Qed.

(** [Object.entries] lists each own property once. *)
Lemma entries_perm (o : JSObject.object) : Permutation (JSObject.entries o) o.
Proof.
  unfold JSObject.entries. induction o as [|[k v] r IH]; [reflexivity|].
  simpl JSObject.indexEntries. unfold JSObject.nameEntries in *. simpl filter.
  destruct (JSObject.arrayIndex k) as [i|].
  - rewrite (Permutation_map snd (insertIndex_perm (i, (k, v)) (JSObject.indexEntries r))).
    simpl. constructor. exact IH.
  - rewrite <- Permutation_middle. constructor. exact IH.
Qed.

Section SortFacts.
Context {A : Type}.
Variable comparefn : A -> A -> option Z.

Lemma insert_perm (x : A) (l : list A) :
  Permutation (JSArray.insert comparefn x l) (x :: l).
Proof.
  induction l as [|y r IH]; simpl; [reflexivity|].
  destruct (JSArray.sortsBefore comparefn x y); [reflexivity|].
  rewrite IH. apply perm_swap.
Qed.

(** [sort] rearranges the array. *)
Lemma sort_perm (l : list A) : Permutation (JSArray.stableSort comparefn l) l.
Proof.
  induction l as [|x r IH]; simpl; [reflexivity|].
  rewrite insert_perm. constructor. exact IH.
Qed.

Variable comparefn' : A -> A -> option Z.

Lemma insert_ext (x : A) (l : list A) :
  (forall y, In y l ->
     JSArray.sortsBefore comparefn x y = JSArray.sortsBefore comparefn' x y) ->
  JSArray.insert comparefn x l = JSArray.insert comparefn' x l.
Proof.
  induction l as [|y r IH]; intros H; simpl; [reflexivity|].
  rewrite (H y (or_introl eq_refl)).
  destruct (JSArray.sortsBefore comparefn' x y); [reflexivity|].
  f_equal. apply IH. intros z Hz. apply H. right; exact Hz.
Qed.

(** Two comparators that agree on the elements of an array sort it alike. *)
Lemma sort_ext (l : list A) :
  (forall x y, In x l -> In y l ->
     JSArray.sortsBefore comparefn x y = JSArray.sortsBefore comparefn' x y) ->
  JSArray.stableSort comparefn l = JSArray.stableSort comparefn' l.
Proof.
  induction l as [|x r IH]; intros H; simpl; [reflexivity|].
  rewrite <- IH by (intros; apply H; right; assumption).
  apply insert_ext. intros y Hy. apply H; [left; reflexivity|].
  right. apply (Permutation_in _ (sort_perm r)). exact Hy.
Qed.

End SortFacts.

(** *** Order after the sort *)

Lemma precedes_cons {A : Type} (a b x : A) (l : list A) :
  precedes a b l -> precedes a b (x :: l).
Proof. intros [l1 [l2 [l3 ->]]]. exists (x :: l1), l2, l3. reflexivity. Qed.

Lemma precedes_head {A : Type} (a b : A) (l : list A) :
  In b l -> precedes a b (a :: l).
Proof.
  intros H. apply in_split in H. destruct H as [l2 [l3 ->]].
  exists [], l2, l3. reflexivity.
Qed.

Lemma precedes_inv {A : Type} (a b x : A) (l : list A) :
  precedes a b (x :: l) -> (x = a /\ In b l) \/ precedes a b l.
Proof.
  intros [[|y l1] [l2 [l3 H]]]; simpl in H; injection H as -> ->.
  - left. split; [reflexivity|]. apply in_or_app. right. left. reflexivity.
  - right. exists l1, l2, l3. reflexivity.
Qed.

Lemma precedes_app_l {A : Type} (a b : A) (l l' : list A) :
  precedes a b l -> precedes a b (l ++ l').
Proof.
  intros [l1 [l2 [l3 ->]]]. exists l1, l2, (l3 ++ l').
  rewrite <- !app_assoc. simpl. rewrite <- app_assoc. reflexivity.
Qed.

Lemma precedes_firstn {A : Type} (a b : A) (n : nat) (l : list A) :
  precedes a b (firstn n l) -> precedes a b l.
Proof.
  intros H. rewrite <- (firstn_skipn n l). apply precedes_app_l, H.
Qed.

Lemma precedes_map_inv {A B : Type} (f : A -> B) (a b : B) (l : list A) :
  precedes a b (map f l) ->
  exists x y, f x = a /\ f y = b /\ precedes x y l.
Proof.
  intros [l1 [l2 [l3 H]]].
  apply map_eq_app in H. destruct H as [m1 [ma [-> [_ H]]]].
  apply map_eq_cons in H. destruct H as [x [mb [-> [Hx H]]]].
  apply map_eq_app in H. destruct H as [m2 [mc [-> [_ H]]]].
  apply map_eq_cons in H. destruct H as [y [m3 [-> [Hy _]]]].
  exists x, y. repeat split; try assumption. exists m1, m2, m3. reflexivity.
Qed.

Lemma precedes_map {A B : Type} (f : A -> B) (x y : A) (l : list A) :
  precedes x y l -> precedes (f x) (f y) (map f l).
Proof.
  intros [l1 [l2 [l3 ->]]]. exists (map f l1), (map f l2), (map f l3).
  rewrite map_app. simpl. rewrite map_app. reflexivity.
Qed.

Lemma precedes_or {A : Type} (a b : A) (l : list A) :
  In a l -> In b l -> a <> b -> precedes a b l \/ precedes b a l.
Proof.
  intros Ha Hb Hne. apply in_split in Ha. destruct Ha as [l1 [l2 ->]].
  apply in_app_or in Hb. destruct Hb as [Hb | [Hb | Hb]]; [|congruence|].
  - right. apply in_split in Hb. destruct Hb as [m1 [m2 ->]].
    exists m1, m2, l2. rewrite <- app_assoc. reflexivity.
  - left. apply in_split in Hb. destruct Hb as [m1 [m2 ->]].
    exists l1, m1, m2. reflexivity.
Qed.

Lemma sorted_precedes {A : Type} (R : A -> A -> Prop) (x y : A) (l : list A) :
  StronglySorted R l -> precedes x y l -> R x y.
Proof.
  intros Hs [l1 [l2 [l3 ->]]]. induction l1 as [|z l1 IH]; simpl in Hs.
  - apply StronglySorted_inv in Hs. destruct Hs as [_ Hall].
    rewrite Forall_forall in Hall. apply Hall.
    apply in_or_app. right. left. reflexivity.
  - apply StronglySorted_inv in Hs. apply IH, Hs.
Qed.

Lemma precedes_filter {A : Type} (p : A -> bool) (x y : A) (l : list A) :
  p x = true -> p y = true -> precedes x y l -> precedes x y (filter p l).
Proof.
  intros Hx Hy [l1 [l2 [l3 ->]]].
  exists (filter p l1), (filter p l2), (filter p l3).
  rewrite filter_app. simpl. rewrite Hx, filter_app. simpl. rewrite Hy. reflexivity.
Qed.

Lemma precedes_app_r {A : Type} (a b : A) (l l' : list A) :
  precedes a b l -> precedes a b (l' ++ l).
Proof.
  intros [l1 [l2 [l3 ->]]]. exists (l' ++ l1), l2, l3.
  rewrite <- app_assoc. reflexivity.
Qed.

Lemma NoDup_split_unique {A : Type} (a : A) (x1 y1 x2 y2 : list A) :
  NoDup (x1 ++ a :: y1) -> x1 ++ a :: y1 = x2 ++ a :: y2 -> x1 = x2.
Proof.
  revert x2. induction x1 as [|c x1 IH]; intros x2 Hnd H.
  - destruct x2 as [|d x2]; [reflexivity|]. simpl in H. injection H as <- H.
    inversion Hnd as [|? ? Hnotin _]; subst. exfalso. apply Hnotin.
    apply in_or_app. right. left. reflexivity.
  - destruct x2 as [|d x2]; simpl in H; injection H as <- H.
    + inversion Hnd as [|? ? Hnotin _]; subst. exfalso. apply Hnotin.
      apply in_or_app. right. left. reflexivity.
    + f_equal. apply IH; [|exact H]. inversion Hnd; assumption.
Qed.

(** In a list without repetition two elements stand in one order only. *)
Lemma precedes_asym {A : Type} (a b : A) (l : list A) :
  NoDup l -> precedes a b l -> precedes b a l -> False.
Proof.
  intros Hnd [l1 [l2 [l3 H1]]] [m1 [m2 [m3 H2]]].
  assert (H : l1 ++ a :: (l2 ++ b :: l3) = (m1 ++ b :: m2) ++ a :: m3).
  { rewrite <- H1, H2, <- app_assoc. reflexivity. }
  rewrite H1 in Hnd. apply (NoDup_split_unique a _ _ _ _ Hnd) in H. subst l1.
  rewrite <- app_assoc in Hnd. apply NoDup_app_remove_l in Hnd. simpl in Hnd.
  inversion Hnd as [|? ? Hnotin _]; subst. apply Hnotin.
  apply in_or_app. right. right. apply in_or_app. right. left. reflexivity.
Qed.

Lemma sortsBefore_byCount (a b : jsstring * JSObject.value) :
  JSArray.sortsBefore byCount a b = (frequency b <=? frequency a)%Z.
Proof.
  unfold JSArray.sortsBefore, byCount.
  destruct (Z.leb_spec (frequency b - frequency a) 0);
    destruct (Z.leb_spec (frequency b) (frequency a)); try reflexivity; lia.
Qed.

Lemma insert_byCount_sorted (x : jsstring * JSObject.value)
  (l : list (jsstring * JSObject.value)) :
  StronglySorted descending l ->
  StronglySorted descending (JSArray.insert byCount x l).
Proof.
  induction l as [|y r IH]; intros Hs; simpl.
  - repeat constructor.
  - rewrite sortsBefore_byCount. apply StronglySorted_inv in Hs.
    destruct Hs as [Hr Hy].
    destruct (Z.leb_spec (frequency y) (frequency x)) as [Hle|Hgt].
    + constructor; [constructor; assumption|].
      constructor; [exact Hle|].
      rewrite Forall_forall in *. intros z Hz. specialize (Hy z Hz).
      unfold descending in *. lia.
    + constructor; [apply IH, Hr|].
      rewrite Forall_forall in *. intros z Hz.
      apply (Permutation_in _ (insert_perm byCount x r)) in Hz.
      destruct Hz as [<- | Hz]; [unfold descending; lia | apply Hy, Hz].
Qed.

Lemma sort_byCount_sorted (l : list (jsstring * JSObject.value)) :
  StronglySorted descending (JSArray.stableSort byCount l).
Proof.
  induction l as [|x r IH]; simpl; [constructor | apply insert_byCount_sorted, IH].
Qed.

(** On entries that hold numbers the comparator of the source is a
    consistent one. *)
Lemma byFrequency_numbers (a b : jsstring * JSObject.value) :
  isNumber (snd a) -> isNumber (snd b) -> byFrequency a b = byCount a b.
Proof.
  destruct a as [ka va], b as [kb vb]. simpl. intros [ma ->] [mb ->]. reflexivity.
Qed.

Lemma stableSort_numbers (l : list (jsstring * JSObject.value)) :
  Forall (fun e => isNumber (snd e)) l ->
  JSArray.stableSort byFrequency l = JSArray.stableSort byCount l.
Proof.
  intros Hall. rewrite Forall_forall in Hall.
  apply sort_ext. intros x y Hx Hy. unfold JSArray.sortsBefore.
  rewrite byFrequency_numbers; auto.
Qed.

(** The stable order: an element stays before a later one it does not have
    to follow. *)
Lemma insert_before {A : Type} (cmp : A -> A -> option Z) (a b : A) (l : list A) :
  In b l -> JSArray.sortsBefore cmp a b = true ->
  precedes a b (JSArray.insert cmp a l).
Proof.
  intros Hb Hab. induction l as [|y r IH]; simpl in *; [tauto|].
  destruct (JSArray.sortsBefore cmp a y) eqn:E.
  - apply precedes_head. exact Hb.
  - destruct Hb as [-> | Hb]; [congruence|]. apply precedes_cons, IH, Hb.
Qed.

Lemma insert_keeps_order {A : Type} (cmp : A -> A -> option Z) (a b x : A)
  (l : list A) :
  precedes a b l -> precedes a b (JSArray.insert cmp x l).
Proof.
  induction l as [|y r IH]; intros H; simpl.
  - destruct H as [[|? ?] [? [? H]]]; discriminate.
  - destruct (JSArray.sortsBefore cmp x y); [apply precedes_cons, H|].
    apply precedes_inv in H. destruct H as [[-> Hb] | H].
    + apply precedes_head.
      apply (Permutation_in _ (Permutation_sym (insert_perm cmp x r))).
      right. exact Hb.
    + apply precedes_cons, IH, H.
Qed.

Lemma sort_stable {A : Type} (cmp : A -> A -> option Z) (a b : A) (l : list A) :
  precedes a b l -> JSArray.sortsBefore cmp a b = true ->
  precedes a b (JSArray.stableSort cmp l).
Proof.
  intros H Hab. induction l as [|x r IH]; simpl.
  - destruct H as [[|? ?] [? [? H]]]; discriminate.
  - apply precedes_inv in H. destruct H as [[-> Hb] | H].
    + apply insert_before; [|exact Hab].
      apply (Permutation_in _ (Permutation_sym (sort_perm cmp r))). exact Hb.
    + apply insert_keeps_order, IH, H.
Qed.

(** *** Consistent comparators *)

Lemma compare_numbers (a b : jsstring * JSObject.value) :
  isNumber (snd a) -> isNumber (snd b) ->
  JSArray.compare byFrequency a b = (frequency b - frequency a)%Z.
Proof.
  destruct a as [ka va], b as [kb vb]. simpl. intros [ma ->] [mb ->]. reflexivity.
Qed.

(** On entries that all hold numbers the comparator of the source is
    consistent. *)
Lemma numbers_consistent (l : list (jsstring * JSObject.value)) :
  Forall (fun e => isNumber (snd e)) l ->
  JSArray.consistentOn byFrequency l = true.
Proof.
  intros Hall. rewrite Forall_forall in Hall. unfold JSArray.consistentOn.
  apply forallb_forall. intros a Ha. apply forallb_forall. intros b Hb.
  apply forallb_forall. intros c Hc. unfold JSArray.consistentAt.
  rewrite !compare_numbers by auto.
  repeat (apply andb_true_iff; split).
  - apply Z.eqb_eq. lia.
  - destruct (Z.eqb_spec (frequency b - frequency a) 0); simpl; [|reflexivity].
    apply Z.eqb_eq. lia.
  - destruct (Z.eqb_spec (frequency b - frequency a) 0),
      (Z.eqb_spec (frequency c - frequency b) 0); simpl; try reflexivity.
    apply Z.eqb_eq. lia.
  - destruct (Z.ltb_spec (frequency b - frequency a) 0),
      (Z.ltb_spec (frequency c - frequency b) 0); simpl; try reflexivity.
    apply Z.ltb_lt. lia.
  - destruct (Z.ltb_spec 0 (frequency b - frequency a)),
      (Z.ltb_spec 0 (frequency c - frequency b)); simpl; try reflexivity.
    apply Z.ltb_lt. lia.
Qed.

Lemma entries_numbers (ws : list jsstring) :
  ~ In (str "constructor") ws ->
  Forall (fun e => isNumber (snd e)) (JSObject.entries (countWords ws)).
Proof.
  intros Hc. pose proof (countWords_numbers ws Hc [] (Forall_nil _)) as Hnum.
  rewrite Forall_forall in *. intros e He. apply Hnum.
  apply (Permutation_in _ (entries_perm _)). exact He.
Qed.

(** *** [slice(0, n)] *)

Lemma slice_from_start {A : Type} (l : list A) (n : Z) :
  JSArray.slice l 0 n
  = firstn (Z.to_nat (JSArray.relativeIndex (Z.of_nat (List.length l)) n)) l.
Proof.
  unfold JSArray.slice.
  replace (JSArray.relativeIndex (Z.of_nat (List.length l)) 0) with 0%Z.
  - rewrite Z.sub_0_r. reflexivity.
  - unfold JSArray.relativeIndex. simpl. lia.
Qed.

Lemma slice_nonnegative {A : Type} (l : list A) (n : Z) :
  (0 <= n)%Z -> JSArray.slice l 0 n = firstn (Z.to_nat n) l.
Proof.
  intros Hn. rewrite slice_from_start. unfold JSArray.relativeIndex.
  destruct (Z.ltb_spec n 0); [lia|].
  destruct (Z.le_ge_cases n (Z.of_nat (List.length l))) as [H1|H1].
  - rewrite Z.min_l by assumption. reflexivity.
  - rewrite Z.min_r by assumption. rewrite Nat2Z.id.
    rewrite !firstn_all2; [reflexivity | lia | lia].
Qed.

Lemma slice_negative {A : Type} (l : list A) (n : Z) :
  (n < 0)%Z ->
  JSArray.slice l 0 n = firstn (List.length l - Z.to_nat (- n)) l.
Proof.
  intros Hn. rewrite slice_from_start. unfold JSArray.relativeIndex.
  destruct (Z.ltb_spec n 0); [|lia]. f_equal. lia.
Qed.

(** ** The entries of [freq] *)

(** Without the word [constructor], an entry of [freq] holds the number of
    occurrences of its key. *)
Lemma countWords_entry (ws : list jsstring) (k : jsstring) (v : JSObject.value) :
  ~ In (str "constructor") ws ->
  In (k, v) (countWords ws) ->
  v = JSObject.Number (occurrences k ws).
Proof.
  intros Hc Hin.
  assert (Hk : In k (map fst (countWords ws))) by (apply (in_map fst) in Hin; exact Hin).
  apply getOwn_In in Hin; [|apply countWords_NoDup; constructor].
  apply countWords_keys in Hk. destruct Hk as [[] | [Hkw Hks]].
  unfold countWords in Hin.
  rewrite (countWords_counts k ws Hks) in Hin; [|intros ->; tauto | reflexivity].
  destruct (occurrences k ws); [discriminate|]. injection Hin as <-. reflexivity.
Qed.

Lemma In_firstn {A : Type} (x : A) (m : nat) (l : list A) :
  In x (firstn m l) -> In x l.
Proof.
  intros H. rewrite <- (firstn_skipn m l). apply in_or_app. left. exact H.
Qed.

Lemma NoDup_firstn {A : Type} (m : nat) (l : list A) :
  NoDup l -> NoDup (firstn m l).
Proof.
  intros H. rewrite <- (firstn_skipn m l) in H.
  apply NoDup_app_remove_r in H. exact H.
Qed.

(** ** Further properties of the built-in operations and of the selector *)

(** The pieces of [split], put together, are the letters and digits of the
    text, in their order. *)
Lemma split_concat (s : jsstring) : List.concat (JSString.split s) = filter isAlnum s.
Proof.
  induction s as [|c r IH]; [reflexivity|].
  simpl. destruct (isAlnum c) eqn:Hc.
  - destruct (JSString.split r) as [|p ps]; simpl in *; rewrite <- IH; reflexivity.
  - destruct r as [|d r']; [reflexivity|].
    destruct (isAlnum d); [simpl List.concat|]; exact IH.
Qed.

Lemma concat_truthy (l : list jsstring) :
  List.concat (filter JSString.truthy l) = List.concat l.
Proof.
  induction l as [|p l IH]; [reflexivity|].
  simpl. destruct p; simpl; [exact IH | rewrite IH; reflexivity].
Qed.

Lemma In_firstOccurrences (x : jsstring) (l : list jsstring) :
  In x (firstOccurrences l) <-> In x l.
Proof.
  induction l as [|w r IH]; simpl; [tauto|].
  rewrite filter_In, IH. split.
  - intros [H | [H _]]; auto.
  - intros [H | H]; [left; exact H|].
    destruct (eqbStr x w) eqn:E.
    + left. apply eqbStr_eq in E. congruence.
    + right. split; [exact H | reflexivity].
Qed.

Lemma In_counted (x : jsstring) (ws : list jsstring) :
  In x (counted ws) <-> In x ws /\ has stopWords x = false.
Proof.
  unfold counted. rewrite filter_In, negb_true_iff. reflexivity.
Qed.

Lemma counted_nil_iff (ws : list jsstring) :
  counted ws = [] <-> forall w, In w ws -> has stopWords w = true.
Proof.
  split.
  - intros H w Hw. destruct (has stopWords w) eqn:E; [reflexivity|].
    assert (Hin : In w (counted ws)) by (apply In_counted; auto).
    rewrite H in Hin. destruct Hin.
  - intros H. destruct (counted ws) as [|x l] eqn:E; [reflexivity|].
    assert (Hin : In x (counted ws)) by (rewrite E; left; reflexivity).
    apply In_counted in Hin. destruct Hin as [Hx Hs].
    rewrite (H x Hx) in Hs. discriminate.
Qed.

Lemma precedes_app_in {A : Type} (a b : A) (l1 l2 : list A) :
  In a l1 -> In b l2 -> precedes a b (l1 ++ l2).
Proof.
  intros Ha Hb. apply in_split in Ha. destruct Ha as [x1 [x2 ->]].
  apply in_split in Hb. destruct Hb as [y1 [y2 ->]].
  exists x1, (x2 ++ y1), y2. rewrite <- !app_assoc. reflexivity.
Qed.

(** Escaping is undone by the reader of patterns, whatever the keywords
    hold: the class of the escaping step is the class of the syntax
    characters, each keyword is read back as one alternative, character for
    character, and no keyword at all leaves one empty alternative. *)
Theorem escaped_pattern_reads_back (keywords : list jsstring) :
  (forall c, isEscaped c = JSRegExp.isSyntaxCharacter c)
  /\ JSRegExp.parse (patternSource keywords)
     = Some (match keywords with [] => [[]] | _ :: _ => keywords end).
Proof.
  split; [apply isEscaped_syntax|].
  rewrite parse_patternSource. destruct keywords; reflexivity.
Qed.

(** * Properties of the component, for any engine *)

Section WithEngine.

Context {engine : Engine}.

Set Default Proof Using "Type".

(** ** [sort], on the engine *)

(** Whatever the comparator, [sort] rearranges the array. *)
Lemma sort_permutes {A : Type} (cmp : A -> A -> option Z) (l : list A) :
  Permutation (JSArray.sort cmp l) l.
Proof.
  unfold JSArray.sort. destruct (JSArray.consistentOn cmp l);
    [apply sort_perm | apply engineSort_permutes].
Qed.

(** On entries that all hold numbers every engine returns the stable
    sorted order. *)
Lemma sort_numbers_stable (l : list (jsstring * JSObject.value)) :
  Forall (fun e => isNumber (snd e)) l ->
  JSArray.sort byFrequency l = JSArray.stableSort byFrequency l.
Proof.
  intros H. unfold JSArray.sort. rewrite (numbers_consistent l H). reflexivity.
Qed.

Lemma sort_numbers (l : list (jsstring * JSObject.value)) :
  Forall (fun e => isNumber (snd e)) l ->
  JSArray.sort byFrequency l = JSArray.stableSort byCount l.
Proof.
  intros H. rewrite (sort_numbers_stable l H). apply stableSort_numbers, H.
Qed.

(** ** The selector *)

(** Words before numbers apart, ties follow the text: of two tokens that are
    no array indices, the one that occurs first in the text and at least as
    often comes first among the sorted keys. *)
Lemma sorted_keys_first_occurrence (ws : list jsstring) (a b : jsstring) :
  ~ In (str "constructor") ws ->
  JSObject.arrayIndex a = None ->
  JSObject.arrayIndex b = None ->
  precedes a b (firstOccurrences (counted ws)) ->
  (occurrences b ws <= occurrences a ws)%nat ->
  precedes a b
    (map fst (JSArray.sort byFrequency (JSObject.entries (countWords ws)))).
Proof.
  intros Hc Ha Hb Hprec Hle.
  rewrite <- countWords_first_occurrences in Hprec.
  apply precedes_map_inv in Hprec.
  destruct Hprec as [[ka va] [[kb vb] [Hka [Hkb Hprec]]]]. simpl in Hka, Hkb. subst ka kb.
  assert (Hina : In (a, va) (countWords ws)).
  { destruct Hprec as [l1 [l2 [l3 ->]]]. apply in_or_app. right. left. reflexivity. }
  assert (Hinb : In (b, vb) (countWords ws)).
  { destruct Hprec as [l1 [l2 [l3 ->]]]. apply in_or_app. right. right.
    apply in_or_app. right. left. reflexivity. }
  apply (countWords_entry ws a va Hc) in Hina.
  apply (countWords_entry ws b vb Hc) in Hinb. subst va vb.
  apply (precedes_map fst (a, JSObject.Number (occurrences a ws))
           (b, JSObject.Number (occurrences b ws))).
  rewrite (sort_numbers_stable _ (entries_numbers ws Hc)).
  apply sort_stable.
  - unfold JSObject.entries. apply precedes_app_r. unfold JSObject.nameEntries.
    apply precedes_filter; [simpl; rewrite Ha; reflexivity
                           | simpl; rewrite Hb; reflexivity | exact Hprec].
  - unfold JSArray.sortsBefore, byFrequency. simpl. apply Z.leb_le. lia.
Qed.

Lemma sorted_keys_perm (freq : JSObject.object) :
  Permutation (map fst (JSArray.sort byFrequency (JSObject.entries freq)))
    (map fst freq).
Proof.
  apply Permutation_map. rewrite sort_permutes. apply entries_perm.
Qed.

Lemma selectKeywords_firstn (freq : JSObject.object) (n : Z) :
  exists m,
    selectKeywords freq n
    = firstn m (map fst (JSArray.sort byFrequency (JSObject.entries freq))).
Proof. unfold selectKeywords. rewrite slice_from_start. eexists. reflexivity. Qed.

(** The selector on a frequency object whose values are all numbers (as
    they are for every text without the word [constructor]), for a count
    that is not negative: the entries are rearranged in descending order of
    their counts, and the keys of the first [n] entries are returned; so
    none for 0, and all when the object has at most [n] entries. *)
Theorem selectKeywords_first_n (freq : JSObject.object) (n : nat) :
  Forall (fun e => isNumber (snd e)) freq ->
  exists sorted,
    Permutation sorted freq
    /\ StronglySorted descending sorted
    /\ selectKeywords freq (Z.of_nat n) = firstn n (map fst sorted)
    /\ selectKeywords freq 0 = []
    /\ (List.length freq <= n ->
        selectKeywords freq (Z.of_nat n) = map fst sorted)%nat.
Proof.
  intros Hnum.
  assert (Hent : Forall (fun e => isNumber (snd e)) (JSObject.entries freq)).
  { rewrite Forall_forall in *. intros e He. apply Hnum.
    apply (Permutation_in _ (entries_perm _)). exact He. }
  exists (JSArray.stableSort byCount (JSObject.entries freq)).
  unfold selectKeywords. rewrite (sort_numbers _ Hent).
  split; [rewrite sort_perm; apply entries_perm|].
  split; [apply sort_byCount_sorted|].
  split; [rewrite slice_nonnegative by lia; rewrite Nat2Z.id; reflexivity|].
  split; [rewrite slice_nonnegative by lia; reflexivity|].
  intros Hlen. rewrite slice_nonnegative by lia. rewrite Nat2Z.id.
  apply firstn_all2. rewrite length_map.
  rewrite (Permutation_length (sort_perm _ _)).
  rewrite (Permutation_length (entries_perm _)). exact Hlen.
Qed.

(** On a frequency object whose values are all numbers (as they are for
    every text without the word [constructor]), entries that hold equal
    numbers keep the order [Object.entries] lists them in: the comparator is
    consistent, and the sort stable. *)
Theorem ties_keep_entries_order (freq : JSObject.object) (a b : jsstring)
  (ma mb : nat) :
  Forall (fun e => isNumber (snd e)) freq ->
  precedes (a, JSObject.Number ma) (b, JSObject.Number mb) (JSObject.entries freq) ->
  (mb <= ma)%nat ->
  precedes a b (map fst (JSArray.sort byFrequency (JSObject.entries freq))).
Proof.
  intros Hnum H Hle.
  assert (Hent : Forall (fun e => isNumber (snd e)) (JSObject.entries freq)).
  { rewrite Forall_forall in *. intros e He. apply Hnum.
    apply (Permutation_in _ (entries_perm _)). exact He. }
  rewrite (sort_numbers_stable _ Hent).
  apply (precedes_map fst (a, JSObject.Number ma) (b, JSObject.Number mb)).
  apply sort_stable; [exact H|].
  unfold JSArray.sortsBefore, byFrequency. simpl. apply Z.leb_le. lia.
Qed.

(** The number of keys of [freq]: one for each distinct counted token. *)
Lemma sorted_keys_length (ws : list jsstring) :
  List.length (map fst (JSArray.sort byFrequency (JSObject.entries (countWords ws))))
  = List.length (firstOccurrences (counted ws)).
Proof.
  rewrite (Permutation_length (sorted_keys_perm _)).
  rewrite countWords_first_occurrences. reflexivity.
Qed.

(** Without the word [constructor], the sorted keys go by descending number
    of occurrences. *)
Lemma sorted_keys_descending (ws : list jsstring) (a b : jsstring) :
  ~ In (str "constructor") ws ->
  precedes a b (map fst (JSArray.sort byFrequency (JSObject.entries (countWords ws)))) ->
  (occurrences b ws <= occurrences a ws)%nat.
Proof.
  intros Hc H.
  apply precedes_map_inv in H. destruct H as [[ka va] [[kb vb] [Hfa [Hfb H]]]].
  simpl in Hfa, Hfb. subst ka kb.
  pose proof (countWords_numbers ws Hc [] (Forall_nil _)) as Hnum.
  assert (Hent : Forall (fun e => isNumber (snd e)) (JSObject.entries (countWords ws))).
  { rewrite Forall_forall in *. intros e He. apply Hnum.
    apply (Permutation_in _ (entries_perm _)). exact He. }
  rewrite (sort_numbers _ Hent) in H.
  pose proof (sorted_precedes descending _ _ _ (sort_byCount_sorted _) H) as Hd.
  assert (Hcount : forall k v,
             In (k, v) (JSArray.stableSort byCount (JSObject.entries (countWords ws))) ->
             frequency (k, v) = Z.of_nat (occurrences k ws)).
  { intros k v Hin.
    apply (Permutation_in _ (sort_perm _ _)) in Hin.
    apply (Permutation_in _ (entries_perm _)) in Hin.
    rewrite (countWords_entry _ k v Hc Hin). reflexivity. }
  destruct H as [l1 [l2 [l3 Hl]]].
  unfold descending in Hd. rewrite (Hcount a va), (Hcount b vb) in Hd; [lia | |].
  - rewrite Hl. apply in_or_app. right. right. apply in_or_app. right. left.
    reflexivity.
  - rewrite Hl. apply in_or_app. right. left. reflexivity.
Qed.

(** ** Matching a keyword inside a run of word characters *)

Lemma canonicalize_not_ascii (b : codeunit) :
  isAscii b = false -> isAscii (JSRegExp.canonicalize b) = false.
Proof.
  intros Hb. unfold JSRegExp.canonicalize. rewrite Hb.
  destruct (unicodeUpper b) as [|cu [|? ?]]; try assumption.
  destruct (isAscii cu) eqn:E; assumption.
Qed.

(** Against a letter or a digit, Canonicalize compares as the ASCII case
    folding does, whatever the tables of the engine. *)
Lemma canonicalize_alnum (a b : codeunit) :
  isAlnum a = true ->
  (JSRegExp.canonicalize a =? JSRegExp.canonicalize b)
  = (asciiLower b =? asciiLower a).
Proof.
  intros Ha. destruct (isAscii b) eqn:Hb.
  - unfold JSRegExp.canonicalize. rewrite Hb.
    assert (Haa : isAscii a = true) by (class_facts; apply isAscii_true; lia).
    rewrite Haa.
    destruct (N.eqb_spec (asciiLower b) (asciiLower a)) as [E|E].
    + apply N.eqb_eq, upper_eq_lower_eq. congruence.
    + apply N.eqb_neq. intros E'. apply upper_eq_lower_eq in E'. congruence.
  - pose proof (canonicalize_not_ascii b Hb) as Hc.
    assert (Hl : JSRegExp.canonicalize a = asciiUpper a).
    { unfold JSRegExp.canonicalize.
      replace (isAscii a) with true; [reflexivity|].
      symmetry. class_facts. apply isAscii_true. lia. }
    rewrite Hl.
    transitivity false; [|symmetry]; apply N.eqb_neq.
    + intros E. rewrite <- E in Hc. unfold asciiUpper in Hc.
      destruct (isLower a) eqn:La; class_facts; lia.
    + unfold asciiLower.
      destruct (isUpper a) eqn:Ua, (isUpper b) eqn:Ub; class_facts; lia.
Qed.

(** The run [w] of word characters ends where the text [rest] begins.  An
    alternative [k] matches at its start and ends at a word boundary exactly
    when it is the whole run, up to case. *)
Lemma literal_in_word (k : jsstring) :
  forall (w rest : jsstring) (prev : option codeunit),
    forallb isAlnum k = true ->
    forallb isWordChar w = true ->
    JSRegExp.wordAt rest = false ->
    k <> [] \/ JSRegExp.wordBefore prev = true ->
    match JSRegExp.matchLiteral k (w ++ rest) prev with
    | Some (prev', s') => JSRegExp.atBoundary prev' s'
    | None => false
    end = equalIgnoringCase w k.
Proof.
  induction k as [|a k IH]; intros w rest prev Hk Hw Hrest Hprev.
  - destruct Hprev as [Hne | Hprev]; [congruence|].
    cbn [JSRegExp.matchLiteral]. unfold JSRegExp.atBoundary. rewrite Hprev.
    destruct w as [|c w]; simpl in *.
    + rewrite Hrest. reflexivity.
    + apply andb_true_iff in Hw. destruct Hw as [-> _]. reflexivity.
  - simpl in Hk. apply andb_true_iff in Hk. destruct Hk as [Ha Hk].
    destruct w as [|b w].
    + simpl app. destruct rest as [|c r]; [reflexivity|].
      cbn [JSRegExp.matchLiteral]. rewrite (canonicalize_alnum a c Ha).
      destruct (N.eqb_spec (asciiLower c) (asciiLower a)) as [E|E]; [|reflexivity].
      symmetry in E. apply (lower_eq_alnum a c Ha), alnum_word in E.
      simpl in Hrest. congruence.
    + simpl in Hw. apply andb_true_iff in Hw. destruct Hw as [Hb Hw].
      simpl app. cbn [JSRegExp.matchLiteral]. rewrite (canonicalize_alnum a b Ha).
      unfold equalIgnoringCase. simpl map. cbn [eqbStr].
      destruct (asciiLower b =? asciiLower a); [|reflexivity].
      simpl andb. apply IH; auto.
Qed.

Lemma tryAlternatives_word (keywords : list jsstring) (w rest : jsstring)
  (prev : option codeunit) :
  forallb isKeyword keywords = true ->
  forallb isWordChar w = true ->
  JSRegExp.wordAt rest = false ->
  JSRegExp.tryAlternatives keywords prev (w ++ rest)
  = if existsb (equalIgnoringCase w) keywords then Some (List.length w) else None.
Proof.
  intros Hks Hw Hrest. induction keywords as [|k ks IH]; [reflexivity|].
  simpl in Hks. apply andb_true_iff in Hks. destruct Hks as [Hk Hks].
  apply isKeyword_true in Hk. destruct Hk as [Hne Hk].
  pose proof (literal_in_word k w rest prev Hk Hw Hrest (or_introl Hne)) as H.
  cbn [JSRegExp.tryAlternatives existsb].
  destruct (JSRegExp.matchLiteral k (w ++ rest) prev) as [[p' s']|].
  - rewrite H. destruct (equalIgnoringCase w k) eqn:E.
    + rewrite (equalIgnoringCase_length w k E). reflexivity.
    + simpl. apply IH, Hks.
  - rewrite <- H. simpl. apply IH, Hks.
Qed.

(** No keyword matches where the text has no word character. *)
Lemma matchAt_outside_word (keywords : list jsstring) (s : jsstring)
  (prev : option codeunit) :
  forallb isKeyword keywords = true ->
  JSRegExp.wordAt s = false ->
  JSRegExp.matchAt keywords prev s = None.
Proof.
  intros Hks Hs. unfold JSRegExp.matchAt.
  destruct (JSRegExp.atBoundary prev s); [|reflexivity].
  pose proof (tryAlternatives_word keywords [] s prev Hks eq_refl Hs) as H.
  simpl app in H. rewrite H. clear H.
  replace (existsb (equalIgnoringCase []) keywords) with false; [reflexivity|].
  symmetry. clear Hs. induction keywords as [|k ks IH]; [reflexivity|].
  simpl in Hks. apply andb_true_iff in Hks. destruct Hks as [Hk Hks].
  apply isKeyword_true in Hk. destruct Hk as [Hne _].
  simpl. rewrite (IH Hks). destruct k; [congruence | reflexivity].
Qed.

(** ** The replacement, run by run *)

(** The characters of a match in progress are copied, and the closing
    marker follows the last of them. *)
Lemma replaceFrom_pending (alts : list jsstring) (m : jsstring) :
  forall (prev : option codeunit) (rest : jsstring),
  exists prev',
    JSRegExp.closing (List.length m)
    ++ JSRegExp.replaceFrom alts prev (m ++ rest) (List.length m)
    = m ++ JSRegExp.marker ++ JSRegExp.replaceFrom alts prev' rest 0.
Proof.
  induction m as [|c m IH]; intros prev rest.
  - exists prev. reflexivity.
  - destruct (IH (Some c) rest) as [prev' H]. exists prev'.
    simpl. rewrite H. reflexivity.
Qed.

(** Inside a word no match starts. *)
Lemma replaceFrom_inside_word (alts : list jsstring) (w : jsstring) :
  forall (prev : option codeunit) (rest : jsstring),
    JSRegExp.wordBefore prev = true ->
    forallb isWordChar w = true ->
    exists prev',
      JSRegExp.replaceFrom alts prev (w ++ rest) 0
      = w ++ JSRegExp.replaceFrom alts prev' rest 0.
Proof.
  induction w as [|c w IH]; intros prev rest Hprev Hw.
  - exists prev. reflexivity.
  - simpl in Hw. apply andb_true_iff in Hw. destruct Hw as [Hc Hw].
    destruct (IH (Some c) rest Hc Hw) as [prev' H]. exists prev'.
    simpl. unfold JSRegExp.matchAt, JSRegExp.atBoundary. simpl.
    rewrite Hprev, Hc. simpl. rewrite H. reflexivity.
Qed.

Lemma replaceFrom_whole_words (keywords : list jsstring) :
  forallb isKeyword keywords = true ->
  forall (n : nat) (s : jsstring) (prev : option codeunit),
    (List.length s <= n)%nat ->
    JSRegExp.wordBefore prev = false \/ JSRegExp.wordAt s = false ->
    JSRegExp.replaceFrom keywords prev s 0
    = wholeWordHighlight s keywords.
Proof.
  intros Hks. induction n as [|n IH]; intros s prev Hlen Hpos.
  - destruct s; [|simpl in Hlen; lia].
    simpl. rewrite (matchAt_outside_word keywords [] prev Hks eq_refl). reflexivity.
  - destruct s as [|c r].
    { simpl. rewrite (matchAt_outside_word keywords [] prev Hks eq_refl). reflexivity. }
    simpl in Hlen. destruct (isWordChar c) eqn:Hc.
    + destruct Hpos as [Hprev | Hat]; [|simpl in Hat; congruence].
      destruct (word_span r) as [w [rest [-> [Hw Hrest]]]].
      assert (Hcw : forallb isWordChar (c :: w) = true) by (simpl; rewrite Hc; exact Hw).
      assert (Hrl : (List.length rest <= n)%nat) by (rewrite length_app in Hlen; lia).
      change (c :: w ++ rest) with ((c :: w) ++ rest) at 2.
      rewrite highlight_spec_word_run by (congruence || assumption).
      cbn [JSRegExp.replaceFrom]. unfold JSRegExp.matchAt, JSRegExp.atBoundary.
      rewrite Hprev. cbn [JSRegExp.wordAt]. rewrite Hc. cbn [xorb].
      change (c :: w ++ rest) with ((c :: w) ++ rest).
      rewrite (tryAlternatives_word keywords (c :: w) rest prev Hks Hcw Hrest).
      destruct (existsb (equalIgnoringCase (c :: w)) keywords).
      * cbn [List.length].
        destruct (replaceFrom_pending keywords w (Some c) rest) as [prev' H].
        simpl app at 2. rewrite H.
        rewrite (IH rest prev' Hrl (or_intror Hrest)).
        simpl. rewrite <- !app_assoc. reflexivity.
      * destruct (replaceFrom_inside_word keywords w (Some c) rest Hc Hw) as [prev' H].
        simpl app at 1. rewrite H.
        rewrite (IH rest prev' Hrl (or_intror Hrest)). reflexivity.
    + rewrite (highlight_spec_other keywords c r Hc).
      cbn [JSRegExp.replaceFrom].
      rewrite (matchAt_outside_word keywords (c :: r) prev Hks Hc).
      rewrite (IH r (Some c)); [reflexivity | lia | left; exact Hc].
Qed.

(** [new RegExp] never throws in [highlight]. *)
Lemma highlight_total (input : jsstring) (keywords : list jsstring) :
  highlight input keywords
  = Some (JSRegExp.replaceAll (alternativesOf keywords) input).
Proof. unfold highlight. rewrite parse_patternSource. reflexivity. Qed.

(** ** No keyword at all *)

Lemma replaceFrom_no_word (s : jsstring) :
  forall prev,
    JSRegExp.wordBefore prev = false ->
    forallb (fun c => negb (isWordChar c)) s = true ->
    JSRegExp.replaceFrom [[]] prev s 0 = s.
Proof.
  induction s as [|c r IH]; intros prev Hprev Hs.
  - simpl. unfold JSRegExp.matchAt, JSRegExp.atBoundary. rewrite Hprev. reflexivity.
  - simpl in Hs. apply andb_true_iff in Hs. destruct Hs as [Hc Hr].
    apply negb_true_iff in Hc.
    simpl. unfold JSRegExp.matchAt, JSRegExp.atBoundary. simpl.
    rewrite Hprev, Hc. simpl. f_equal. apply IH; assumption.
Qed.

(** With no keyword, a text without any letter, digit or underscore comes
    back unchanged: it has no word boundary for the empty group to match. *)
Theorem highlight_no_keywords_no_word (input : jsstring) :
  forallb (fun c => negb (isWordChar c)) input = true ->
  highlight input [] = Some input.
Proof.
  intros H. rewrite highlight_total. f_equal. unfold JSRegExp.replaceAll.
  apply replaceFrom_no_word; [reflexivity | exact H].
Qed.

(** ** The tokens and the keywords *)

Lemma toLowerCase_no_upper (s : jsstring) (c : codeunit) :
  In c (JSString.toLowerCase s) -> isUpper c = false.
Proof.
  unfold JSString.toLowerCase. intros H. apply in_map_iff in H.
  destruct H as [x [<- _]]. unfold asciiLower.
  destruct (isUpper x) eqn:E; [|exact E].
  apply isUpper_false. class_facts. lia.
Qed.

(** A token is a non-empty run of lower-case letters and digits. *)
Lemma words_lowercase (input w : jsstring) :
  In w (words input) ->
  w <> [] /\ forallb (fun c => isLower c || isDigit c) w = true.
Proof.
  unfold words. intros H. apply filter_In in H. destruct H as [Hin Hne].
  split; [intros ->; discriminate|].
  destruct (split_pieces _ w Hin) as [Hal Hsub].
  apply forallb_forall. intros c Hc.
  rewrite forallb_forall in Hal. specialize (Hal c Hc).
  pose proof (toLowerCase_no_upper input c (Hsub c Hc)) as Hup.
  unfold isAlnum in Hal. rewrite Hup, orb_false_r in Hal. exact Hal.
Qed.

Lemma keyword_in_freq (input : jsstring) (n : Z) (k : jsstring) :
  In k (extractKeywords input n) -> In k (map fst (countWords (words input))).
Proof.
  unfold extractKeywords. intros H.
  destruct (selectKeywords_firstn (countWords (words input)) n) as [m E].
  rewrite E in H. apply In_firstn in H.
  apply (Permutation_in _ (sorted_keys_perm _)). exact H.
Qed.

(** The keywords are distinct tokens of the input, none of them a
    stop-word, each a non-empty run of lower-case letters and digits; for
    a count that is not negative there are at most that many. *)
Theorem keywords_distinct_tokens (input : jsstring) (n : Z) :
  NoDup (extractKeywords input n)
  /\ (forall k, In k (extractKeywords input n) ->
        In k (words input) /\ has stopWords k = false /\ k <> []
        /\ forallb (fun c => isLower c || isDigit c) k = true)
  /\ (0 <= n -> Z.of_nat (List.length (extractKeywords input n)) <= n)%Z.
Proof.
  split; [|split].
  - unfold extractKeywords.
    destruct (selectKeywords_firstn (countWords (words input)) n) as [m ->].
    apply NoDup_firstn.
    apply (Permutation_NoDup (Permutation_sym (sorted_keys_perm _))).
    apply countWords_NoDup. constructor.
  - intros k Hk. apply keyword_in_freq in Hk.
    apply countWords_keys in Hk. destruct Hk as [[] | [Hin Hs]].
    destruct (words_lowercase input k Hin) as [Hne Hlow]. auto.
  - intros Hn. unfold extractKeywords, selectKeywords.
    rewrite slice_nonnegative by lia. rewrite length_firstn. lia.
Qed.

(** A token other than [constructor] that is no stop-word is counted: [freq]
    holds the number of its occurrences, from 1 on.  A stop-word gets no
    property, and the empty input gives the empty object. *)
Theorem countWords_frequencies (input w : jsstring) :
  (has stopWords w = false -> w <> str "constructor" ->
   JSObject.getOwn (countWords (words input)) w
   = match occurrences w (words input) with
     | O => None
     | S m => Some (JSObject.Number (S m))
     end)
  /\ (has stopWords w = true -> JSObject.getOwn (countWords (words input)) w = None)
  /\ countWords (words []) = [].
Proof.
  split; [|split].
  - intros Hs Hc. apply countWords_counts; auto.
  - intros Hs. apply getOwn_None. intros Hin.
    apply countWords_keys in Hin. destruct Hin as [[] | [_ Hs']]. congruence.
  - reflexivity.
Qed.

(** When the word [constructor] is not in the text, a token that occurs
    more often than another one comes before it among the keywords. *)
Theorem frequency_order_without_constructor (input : jsstring) (n : Z)
  (a b : jsstring) :
  ~ In (str "constructor") (words input) ->
  In a (extractKeywords input n) ->
  In b (extractKeywords input n) ->
  (occurrences b (words input) < occurrences a (words input))%nat ->
  precedes a b (extractKeywords input n).
Proof.
  intros Hc Ha Hb Hlt.
  assert (Hne : a <> b) by (intros ->; lia).
  destruct (precedes_or a b _ Ha Hb Hne) as [H | H]; [exact H | exfalso].
  unfold extractKeywords in H.
  destruct (selectKeywords_firstn (countWords (words input)) n) as [m E].
  rewrite E in H. apply precedes_firstn in H.
  apply precedes_map_inv in H. destruct H as [[kb vb] [[ka va] [Hfb [Hfa H]]]].
  simpl in Hfb, Hfa. subst kb ka.
  pose proof (countWords_numbers (words input) Hc [] (Forall_nil _)) as Hnum.
  assert (Hent : Forall (fun e => isNumber (snd e))
                   (JSObject.entries (countWords (words input)))).
  { rewrite Forall_forall in *. intros e He. apply Hnum.
    apply (Permutation_in _ (entries_perm _)). exact He. }
  rewrite (sort_numbers _ Hent) in H.
  pose proof (sorted_precedes descending _ _ _ (sort_byCount_sorted _) H) as Hd.
  assert (Hcount : forall k v,
             In (k, v) (JSArray.stableSort byCount (JSObject.entries (countWords (words input)))) ->
             frequency (k, v) = Z.of_nat (occurrences k (words input))).
  { intros k v Hin.
    apply (Permutation_in _ (sort_perm _ _)) in Hin.
    apply (Permutation_in _ (entries_perm _)) in Hin.
    rewrite (countWords_entry _ k v Hc Hin). reflexivity. }
  destruct H as [l1 [l2 [l3 Hl]]].
  unfold descending in Hd. rewrite (Hcount a va), (Hcount b vb) in Hd; [lia | |].
  - rewrite Hl. apply in_or_app. right. left. reflexivity.
  - rewrite Hl. apply in_or_app. right. right. apply in_or_app. right. left.
    reflexivity.
Qed.

(** The tie-break among the keywords.  When the word [constructor] is not in
    the text: of two keywords that are no array indices (any token with a
    letter in it, say), the one that occurs first in the text and at least
    as often comes first. *)
Theorem keywords_ties_by_first_occurrence (input : jsstring) (n : Z)
  (a b : jsstring) :
  ~ In (str "constructor") (words input) ->
  JSObject.arrayIndex a = None ->
  JSObject.arrayIndex b = None ->
  precedes a b (firstOccurrences (counted (words input))) ->
  (occurrences b (words input) <= occurrences a (words input))%nat ->
  In a (extractKeywords input n) ->
  In b (extractKeywords input n) ->
  precedes a b (extractKeywords input n).
Proof.
  intros Hc Ha Hb Hprec Hle Hina Hinb.
  pose proof (sorted_keys_first_occurrence _ a b Hc Ha Hb Hprec Hle) as Hs.
  assert (Hnd : NoDup (map fst (JSArray.sort byFrequency
                         (JSObject.entries (countWords (words input)))))).
  { apply (Permutation_NoDup (Permutation_sym (sorted_keys_perm _))).
    apply countWords_NoDup. constructor. }
  assert (Hne : a <> b).
  { intros ->. apply (precedes_asym b b _ Hnd Hs Hs). }
  destruct (precedes_or a b _ Hina Hinb Hne) as [H | H]; [exact H | exfalso].
  unfold extractKeywords in H.
  destruct (selectKeywords_firstn (countWords (words input)) n) as [m E].
  rewrite E in H. apply precedes_firstn in H.
  apply (precedes_asym a b _ Hnd Hs H).
Qed.

(** ** The claims of the specification *)

(** C1. [highlight] with an empty keyword list is not the identity: the
    pattern built from no keyword is [\b()\b], which matches the empty string
    at every word boundary, and each match is replaced by an empty pair of
    markers.  The same happens in the whole pipeline when the count is 0. *)
Theorem highlight_no_keywords_adds_markers :
  highlight (str "hello world") [] = Some (str "****hello**** ****world****")
  /\ extractKeywords (str "hello world") 0 = []
  /\ handleSubmit (mkState (str "hello world") 0 [])
     = Some (mkState (str "hello world") 0 (str "****hello**** ****world****")).
Proof. repeat split; vm_compute; reflexivity. Qed.

(** C2. With a negative count the selector does not return the empty list:
    [slice(0, -1)] drops the last entry and keeps the others. *)
Theorem selector_negative_count_keeps_entries :
  selectKeywords [(str "cat", JSObject.Number 1); (str "dog", JSObject.Number 1)] (-1)
  = [str "cat"]
  /\ extractKeywords (str "cat dog") (-1) = [str "cat"].
Proof. split; vm_compute; reflexivity. Qed.

(** C3. With a negative count [extractKeywords] returns more than
    [max(n, 0)] tokens. *)
Theorem extractKeywords_negative_count_exceeds_bound :
  extractKeywords (str "cat dog bird") (-1) = [str "cat"; str "dog"]
  /\ (Z.of_nat (List.length (extractKeywords (str "cat dog bird") (-1)))
      > Z.max (-1) 0)%Z.
Proof. split; vm_compute; reflexivity. Qed.

(** C4. The token [constructor] is ranked by no number: it occurs twice and
    [b] once, both are selected, and [b] comes first. *)
Theorem constructor_breaks_frequency_order :
  words (str "b constructor constructor") = [str "b"; str "constructor"; str "constructor"]
  /\ occurrences (str "constructor") (words (str "b constructor constructor")) = 2%nat
  /\ occurrences (str "b") (words (str "b constructor constructor")) = 1%nat
  /\ has stopWords (str "constructor") = false
  /\ has stopWords (str "b") = false
  /\ extractKeywords (str "b constructor constructor") 2 = [str "b"; str "constructor"].
Proof. repeat split; vm_compute; reflexivity. Qed.

(** C5. The token [constructor] is not counted from 1: the first read of
    [freq["constructor"]] finds the function [Object] on the prototype, and
    adding 1 to a function appends the character 1 to its text. *)
Theorem constructor_is_not_counted :
  words (str "constructor") = [str "constructor"]
  /\ has stopWords (str "constructor") = false
  /\ countWords (words (str "constructor")) = [(str "constructor", JSObject.NativeText 1)]
  /\ JSObject.get (countWords (words (str "constructor"))) (str "constructor")
     <> JSObject.Number 1.
Proof. repeat split; try (vm_compute; reflexivity). vm_compute. discriminate. Qed.

(** C6. In the text [catalog cats cat] with the keyword [cat], only the
    word [cat] that stands alone is wrapped. *)
Theorem highlight_whole_word_cat :
  highlight (str "catalog cats cat") [str "cat"] = Some (str "catalog cats **cat**").
Proof. vm_compute. reflexivity. Qed.

(** C7. For a non-empty list of keywords, each a non-empty run of letters
    and digits as the tokenizer produces them, [highlight] returns
    HighlightedText as the specification words it: every maximal run of word
    characters that is one of the keywords up to case stands between two
    markers, in its original case, and every other run stands as it is;
    the runs, put back together, are the text. *)
Theorem highlight_wraps_whole_words (input : jsstring) (keywords : list jsstring) :
  keywords <> [] ->
  forallb isKeyword keywords = true ->
  highlight input keywords = Some (wholeWordHighlight input keywords)
  /\ flat_map snd (segments input) = input.
Proof.
  intros Hne Hks. split; [|apply segments_concat].
  rewrite highlight_total. f_equal.
  destruct keywords as [|k ks]; [congruence|].
  unfold JSRegExp.replaceAll, alternativesOf.
  apply (replaceFrom_whole_words (k :: ks) Hks (List.length input) input None);
    [lia | left; reflexivity].
Qed.

(** C8. [handleSubmit] keeps the text and the count.  When the trimmed text
    is empty it stores the empty string; otherwise [highlight] of the text
    with the keywords [extractKeywords] returns for the current count has a
    result, and that is what it stores. *)
Theorem handleSubmit_clears_or_stores (st : state) :
  exists h,
    highlight (text st) (extractKeywords (text st) (keywordsCount st)) = Some h
    /\ handleSubmit st
       = Some (mkState (text st) (keywordsCount st)
                 match JSString.trim (text st) with [] => [] | _ :: _ => h end).
Proof.
  unfold handleSubmit. rewrite highlight_total. eexists; split; [reflexivity|].
  destruct (JSString.trim (text st)); reflexivity.
Qed.

(** C9. The tokenizer splits at an underscore and the word boundary of the
    pattern does not: in [cat_dog cat] the tokenizer counts [cat] twice,
    and [highlight] wraps the second occurrence only. *)
Theorem underscore_counted_but_not_highlighted :
  isAlnum 95 = false /\ isWordChar 95 = true
  /\ words (str "cat_dog cat") = [str "cat"; str "dog"; str "cat"]
  /\ JSObject.get (countWords (words (str "cat_dog cat"))) (str "cat") = JSObject.Number 2
  /\ extractKeywords (str "cat_dog cat") 1 = [str "cat"]
  /\ highlight (str "cat_dog cat") [str "cat"] = Some (str "cat_dog **cat**").
Proof. repeat split; vm_compute; reflexivity. Qed.


(** ** Further properties of the component *)

(** *** The tokens *)

(** Tokenizing loses no letter and no digit and keeps their order: the
    tokens, put together, are the letters and digits of the lower-cased
    text; and no token is empty. *)
Theorem words_keep_letters_and_digits (input : jsstring) :
  List.concat (words input) = filter isAlnum (JSString.toLowerCase input)
  /\ Forall (fun w => w <> []) (words input).
Proof.
  split.
  - unfold words. rewrite concat_truthy. apply split_concat.
  - apply Forall_forall. intros w Hw. apply (words_lowercase input w Hw).
Qed.

(** *** How many keywords, and which *)

(** The number of keywords, for any count [n]: with [d] distinct counted
    tokens in the text, [min(n, d)] when [n] is not negative and
    [max(d + n, 0)] when it is. *)
Theorem keyword_count (input : jsstring) (n : Z) :
  List.length (extractKeywords input n)
  = let d := Z.of_nat (List.length (firstOccurrences (counted (words input)))) in
    Z.to_nat (if (n <? 0)%Z then Z.max (d + n) 0 else Z.min n d).
Proof.
  unfold extractKeywords, selectKeywords.
  rewrite slice_from_start, length_firstn, sorted_keys_length.
  unfold JSArray.relativeIndex. cbv zeta.
  destruct (Z.ltb_spec n 0); lia.
Qed.

(** For a positive count there is no keyword exactly when every token of
    the text is a stop-word (a text without letters and digits included). *)
Theorem no_keywords_iff_stop_words_only (input : jsstring) (n : Z) :
  (0 < n)%Z ->
  extractKeywords input n = []
  <-> (forall w, In w (words input) -> has stopWords w = true).
Proof.
  intros Hn. rewrite <- counted_nil_iff.
  assert (Hlen : List.length (extractKeywords input n)
                 = Nat.min (Z.to_nat n)
                     (List.length (firstOccurrences (counted (words input))))).
  { unfold extractKeywords, selectKeywords.
    rewrite slice_nonnegative by lia.
    rewrite length_firstn, sorted_keys_length. reflexivity. }
  split.
  - intros H. rewrite H in Hlen. simpl in Hlen.
    destruct (counted (words input)) as [|x l]; [reflexivity|].
    simpl in Hlen. lia.
  - intros H. rewrite H in Hlen. simpl in Hlen. rewrite Nat.min_0_r in Hlen.
    apply length_zero_iff_nil. exact Hlen.
Qed.

(** The selection is a selection of the most frequent: when the word
    [constructor] is not in the text, a keyword occurs at least as often as
    any counted token that was not selected. *)
Theorem keywords_are_most_frequent (input : jsstring) (n : Z) (a b : jsstring) :
  ~ In (str "constructor") (words input) ->
  In a (extractKeywords input n) ->
  In b (words input) ->
  has stopWords b = false ->
  ~ In b (extractKeywords input n) ->
  (occurrences b (words input) <= occurrences a (words input))%nat.
Proof.
  intros Hc Ha Hb Hs Hnb.
  apply (sorted_keys_descending _ a b Hc).
  unfold extractKeywords in Ha, Hnb.
  destruct (selectKeywords_firstn (countWords (words input)) n) as [m E].
  rewrite E in Ha, Hnb.
  rewrite <- (firstn_skipn m
               (map fst (JSArray.sort byFrequency
                           (JSObject.entries (countWords (words input)))))).
  apply precedes_app_in; [exact Ha|].
  assert (Hin : In b (map fst (JSArray.sort byFrequency
                                 (JSObject.entries (countWords (words input)))))).
  { apply (Permutation_in _ (Permutation_sym (sorted_keys_perm _))).
    rewrite countWords_first_occurrences.
    apply In_firstOccurrences, In_counted. auto. }
  rewrite <- (firstn_skipn m) in Hin. apply in_app_or in Hin.
  destruct Hin as [Hin | Hin]; [contradiction | exact Hin].
Qed.

(** A larger count only adds keywords at the end: the keywords for [n] are
    the first [n] of the keywords for any [m] above [n]. *)
Theorem more_keywords_extend (input : jsstring) (n m : Z) :
  (0 <= n <= m)%Z ->
  extractKeywords input n = firstn (Z.to_nat n) (extractKeywords input m).
Proof.
  intros Hnm. unfold extractKeywords, selectKeywords.
  rewrite !slice_nonnegative by lia. rewrite firstn_firstn.
  f_equal. lia.
Qed.

(** *** [highlight] on any keywords *)

Lemma replaceFrom_inserts (alts : list jsstring) (s : jsstring) :
  forall (prev : option codeunit) (pending : nat),
    InsertsMarkers s (JSRegExp.replaceFrom alts prev s pending).
Proof.
  induction s as [|c r IH]; intros prev pending.
  - simpl. destruct pending; [|constructor].
    destruct (JSRegExp.matchAt alts prev []); repeat constructor.
  - simpl. destruct pending as [|k].
    + destruct (JSRegExp.matchAt alts prev (c :: r)) as [[|k]|].
      * change (JSRegExp.marker ++ JSRegExp.marker ++ ?x) with (42 :: 42 :: 42 :: 42 :: x).
        repeat constructor. apply IH.
      * change (JSRegExp.marker ++ ?x) with (42 :: 42 :: x).
        do 2 constructor. destruct k; [|apply IH].
        change (JSRegExp.closing 0 ++ ?x) with (42 :: 42 :: x).
        constructor. apply IH.
      * constructor. apply IH.
    + constructor. destruct k; [|apply IH].
      change (JSRegExp.closing 0 ++ ?x) with (42 :: 42 :: x).
      constructor. apply IH.
Qed.

Lemma inserts_length (s t : jsstring) :
  InsertsMarkers s t -> (List.length s <= List.length t)%nat.
Proof. induction 1; simpl; lia. Qed.

(** [highlight] never throws and never touches the text: whatever the
    keywords hold (syntax characters of patterns, spaces, nothing), it
    returns the text with markers put in, every character of the text kept
    in its place and its case. *)
Theorem highlight_only_inserts_markers (input : jsstring) (keywords : list jsstring) :
  exists output,
    highlight input keywords = Some output /\ InsertsMarkers input output.
Proof.
  rewrite highlight_total. eexists. split; [reflexivity|].
  apply replaceFrom_inserts.
Qed.

Lemma replaceFrom_no_keywords_grows (s : jsstring) :
  forall prev,
    JSRegExp.wordBefore prev = false ->
    existsb isWordChar s = true ->
    (List.length s + 4 <= List.length (JSRegExp.replaceFrom [[]] prev s 0))%nat.
Proof.
  induction s as [|c r IH]; intros prev Hprev Hs; [discriminate|].
  simpl in Hs. cbn [JSRegExp.replaceFrom].
  unfold JSRegExp.matchAt, JSRegExp.atBoundary. cbn [JSRegExp.wordAt].
  rewrite Hprev. destruct (isWordChar c) eqn:Hc.
  - cbn [xorb JSRegExp.tryAlternatives JSRegExp.matchLiteral].
    unfold JSRegExp.atBoundary. cbn [JSRegExp.wordAt]. rewrite Hprev, Hc.
    cbn [xorb List.length].
    pose proof (inserts_length _ _ (replaceFrom_inserts [[]] r (Some c) 0)) as Hl.
    change (JSRegExp.marker ++ JSRegExp.marker ++ ?x) with (42 :: 42 :: 42 :: 42 :: x).
    simpl List.length. lia.
  - cbn [xorb]. simpl in Hs. specialize (IH (Some c) Hc Hs).
    simpl List.length. lia.
Qed.

(** With no keyword, a text that has a letter, a digit or an underscore does
    not come back as it is: it comes back at least four characters
    longer, with an empty pair of markers at a word boundary. *)
Theorem highlight_no_keywords_changes_text (input : jsstring) :
  existsb isWordChar input = true ->
  exists output,
    highlight input [] = Some output
    /\ InsertsMarkers input output
    /\ (List.length input + 4 <= List.length output)%nat.
Proof.
  intros H. rewrite highlight_total. eexists. split; [reflexivity|]. split.
  - apply replaceFrom_inserts.
  - apply replaceFrom_no_keywords_grows; [reflexivity | exact H].
Qed.

(** *** The handlers *)

Lemma keywords_are_tokens (input : jsstring) (n : Z) :
  forallb isKeyword (extractKeywords input n) = true.
Proof.
  apply forallb_forall. intros k Hk. apply keyword_in_freq in Hk.
  apply countWords_keys in Hk. destruct Hk as [[] | [Hin _]].
  destruct (words_lowercase input k Hin) as [Hne Hlow].
  apply isKeyword_true. split; [exact Hne|].
  apply forallb_forall. intros c Hc. rewrite forallb_forall in Hlow.
  specialize (Hlow c Hc). unfold isAlnum.
  destruct (isLower c), (isDigit c), (isUpper c); try reflexivity; discriminate.
Qed.

(** The pipeline as a whole.  When the trimmed text is not empty and it has
    a keyword, [handleSubmit] stores the text in which every whole word that
    is one of the selected keywords up to case stands between two markers,
    and nothing else is changed. *)
Theorem submit_wraps_selected_words (st : state) :
  JSString.trim (text st) <> [] ->
  extractKeywords (text st) (keywordsCount st) <> [] ->
  handleSubmit st
  = Some (setHighlighted st
            (wholeWordHighlight (text st)
               (extractKeywords (text st) (keywordsCount st)))).
Proof.
  intros Ht Hk. unfold handleSubmit.
  destruct (JSString.trim (text st)) as [|c r]; [congruence|].
  cbn [JSString.truthy negb]. cbv zeta. rewrite highlight_total.
  pose proof (keywords_are_tokens (text st) (keywordsCount st)) as Hks.
  destruct (extractKeywords (text st) (keywordsCount st)) as [|k ks]; [congruence|].
  unfold alternativesOf, JSRegExp.replaceAll.
  rewrite (replaceFrom_whole_words (k :: ks) Hks (List.length (text st)) (text st) None);
    [reflexivity | lia | left; reflexivity].
Qed.

Lemma handleSubmit_total (st : state) :
  exists h, handleSubmit st = Some (setHighlighted st h)
            /\ (JSString.trim (text st) = [] -> h = [])
            /\ (JSString.trim (text st) <> [] -> InsertsMarkers (text st) h).
Proof.
  unfold handleSubmit. destruct (JSString.trim (text st)) as [|c r].
  - exists []. repeat split; congruence.
  - cbn [JSString.truthy negb]. cbv zeta. rewrite highlight_total.
    eexists. split; [reflexivity|]. split; [discriminate|].
    intros _. apply replaceFrom_inserts.
Qed.

(** Submitting again changes nothing: [handleSubmit] highlights the text,
    not the result it stored before, so no marker is wrapped twice. *)
Theorem submit_twice (st : state) :
  exists st', handleSubmit st = Some st' /\ handleSubmit st' = Some st'.
Proof.
  destruct (handleSubmit_total st) as [h [H _]]. exists (setHighlighted st h).
  split; [exact H|]. unfold handleSubmit in *. simpl.
  destruct (negb (JSString.truthy (JSString.trim (text st)))).
  - injection H as H. rewrite <- H at 2. reflexivity.
  - cbv zeta in *.
    destruct (highlight (text st) (extractKeywords (text st) (keywordsCount st)));
      [|discriminate].
    injection H as H. rewrite <- H at 2. reflexivity.
Qed.

(** After a submission the result panel is rendered exactly when the text
    is not white space only, and it shows what [handleSubmit] stored. *)
Theorem panel_shown_iff_text (st : state) :
  exists st',
    handleSubmit st = Some st'
    /\ resultPanel st'
       = if forallb isWhiteSpace (text st) then None else Some (highlighted st').
Proof.
  destruct (handleSubmit_total st) as [h [H [Hempty Hmarked]]].
  exists (setHighlighted st h). split; [exact H|].
  unfold resultPanel. simpl.
  destruct (forallb isWhiteSpace (text st)) eqn:Hw.
  - apply trim_empty_iff in Hw. rewrite (Hempty Hw). reflexivity.
  - assert (Ht : JSString.trim (text st) <> []).
    { intros Ht. apply trim_empty_iff in Ht. congruence. }
    specialize (Hmarked Ht). apply inserts_length in Hmarked.
    destruct h as [|c h]; [|reflexivity].
    destruct (text st); [discriminate Hw | simpl in Hmarked; lia].
Qed.

Lemma run_app (st : state) (evs1 evs2 : list event) :
  run st (evs1 ++ evs2)
  = match run st evs1 with Some st' => run st' evs2 | None => None end.
Proof.
  revert st. induction evs1 as [|ev evs1 IH]; intros st; [reflexivity|].
  simpl. destruct (handleEvent st ev); [apply IH | reflexivity].
Qed.

Lemma run_total (evs : list event) :
  forall st, exists st', run st evs = Some st'.
Proof.
  induction evs as [|ev evs IH]; intros st; [exists st; reflexivity|].
  simpl. destruct ev; simpl; try apply IH.
  destruct (handleSubmit_total st) as [h [H _]]. rewrite H. apply IH.
Qed.

Lemma run_edits (edits : list event) :
  forallb isEdit edits = true ->
  forall st, exists st', run st edits = Some st' /\ highlighted st' = highlighted st.
Proof.
  induction edits as [|ev edits IH]; intros He st; [exists st; split; reflexivity|].
  simpl in He. apply andb_true_iff in He. destruct He as [Hev He].
  destruct ev; [| |discriminate]; simpl.
  - destruct (IH He (setText st value)) as [st' [H1 H2]]. exists st'. split; assumption.
  - destruct (IH He (setKeywordsCount st value)) as [st' [H1 H2]]. exists st'.
    split; assumption.
Qed.

(** The result on the screen is the result of the last submission: typing in
    the text area or changing the count afterwards does not touch it, and
    before the first submission no result panel is shown. *)
Theorem result_is_of_last_submission (edits : list event) :
  forallb isEdit edits = true ->
  (exists st, run initialState edits = Some st /\ resultPanel st = None)
  /\ (forall st evs,
        exists st1 st2 st3,
          run st evs = Some st1
          /\ handleSubmit st1 = Some st2
          /\ run st (evs ++ Submitted :: edits) = Some st3
          /\ highlighted st3 = highlighted st2).
Proof.
  intros He. split.
  - destruct (run_edits edits He initialState) as [st [H1 H2]].
    exists st. split; [exact H1|]. unfold resultPanel. rewrite H2. reflexivity.
  - intros st evs.
    destruct (run_total evs st) as [st1 H1].
    destruct (handleSubmit_total st1) as [h [H2 _]].
    destruct (run_edits edits He (setHighlighted st1 h)) as [st3 [H3 H4]].
    exists st1, (setHighlighted st1 h), st3. repeat split; try assumption.
    rewrite run_app, H1. simpl. rewrite H2. exact H3.
Qed.

End WithEngine.

(** * The outputs do not depend on the engine *)

Section TwoEngines.

Variables e1 e2 : Engine.

Lemma matchLiteral_engines (k : jsstring) :
  forallb isAlnum k = true ->
  forall s prev,
    @JSRegExp.matchLiteral e1 k s prev = @JSRegExp.matchLiteral e2 k s prev.
Proof.
  induction k as [|a k IH]; intros Hk s prev; [reflexivity|].
  simpl in Hk. apply andb_true_iff in Hk. destruct Hk as [Ha Hk].
  destruct s as [|b s]; [reflexivity|]. cbn [JSRegExp.matchLiteral].
  rewrite (@canonicalize_alnum e1 a b Ha), (@canonicalize_alnum e2 a b Ha).
  destruct (asciiLower b =? asciiLower a); [apply IH, Hk | reflexivity].
Qed.

Lemma matchAt_engines (alts : list jsstring) :
  forallb (forallb isAlnum) alts = true ->
  forall prev s,
    @JSRegExp.matchAt e1 alts prev s = @JSRegExp.matchAt e2 alts prev s.
Proof.
  intros Halts prev s. unfold JSRegExp.matchAt.
  destruct (JSRegExp.atBoundary prev s); [|reflexivity].
  induction alts as [|k alts IH]; [reflexivity|].
  simpl in Halts. apply andb_true_iff in Halts. destruct Halts as [Hk Halts].
  cbn [JSRegExp.tryAlternatives]. rewrite (matchLiteral_engines k Hk), (IH Halts).
  reflexivity.
Qed.

(** With alternatives of letters and digits the replacement is the same on
    every engine: against a letter or a digit Canonicalize compares as the
    ASCII case folding does. *)
Lemma replaceFrom_engines (alts : list jsstring) :
  forallb (forallb isAlnum) alts = true ->
  forall s prev pending,
    @JSRegExp.replaceFrom e1 alts prev s pending
    = @JSRegExp.replaceFrom e2 alts prev s pending.
Proof.
  intros Halts. induction s as [|c r IH]; intros prev pending.
  - simpl. rewrite (matchAt_engines alts Halts). reflexivity.
  - cbn [JSRegExp.replaceFrom]. rewrite (matchAt_engines alts Halts).
    destruct pending; [|rewrite IH; reflexivity].
    destruct (@JSRegExp.matchAt e2 alts prev (c :: r)) as [[|k]|];
      rewrite IH; reflexivity.
Qed.

(** On ASCII text all engines lower-case alike. *)
Lemma toLowerCase_ascii (input : jsstring) :
  forallb isAscii input = true ->
  @JSString.toLowerCase e1 input = @JSString.toLowerCase e2 input.
Proof. intros H. unfold JSString.toLowerCase. rewrite H. reflexivity. Qed.


End TwoEngines.



(** * Worked examples, on case tables that stop at ASCII *)

#[local] Existing Instance asciiOnly.

(** Scenario A of the specification. *)
Example scenario_A :
  extractKeywords (str "the cat sat on the mat. The cat was happy.") 2
  = [str "cat"; str "sat"]
  /\ highlight (str "the cat sat on the mat. The cat was happy.")
       [str "cat"; str "sat"]
     = Some (str "the **cat** **sat** on the mat. The **cat** was happy.").
Proof. split; vm_compute; reflexivity. Qed.

(** Tokens that are array indices are listed first by [Object.entries], in
    ascending order, whatever their place in the text. *)
Example ties_with_numbers :
  extractKeywords (str "b x 10 9 007 b") 5
  = [str "b"; str "9"; str "10"; str "x"; str "007"].
Proof. vm_compute. reflexivity. Qed.

Lemma highlight_wraps_whole_words_witness :
  [str "cat"; str "sat"] <> []
  /\ forallb isKeyword [str "cat"; str "sat"] = true
  /\ highlight (str "The Cat sat; cat_nap CAT.") [str "cat"; str "sat"]
     = Some (str "The **Cat** **sat**; cat_nap **CAT**.")
  /\ flat_map snd (segments (str "The Cat sat; cat_nap CAT."))
     = str "The Cat sat; cat_nap CAT.".
Proof.
  split; [discriminate|]. split; [reflexivity|].
  exact (highlight_wraps_whole_words
           (str "The Cat sat; cat_nap CAT.") [str "cat"; str "sat"]
           ltac:(discriminate) eq_refl).
Defined.


Lemma frequency_order_without_constructor_witness :
  precedes (str "cat") (str "sat")
    (extractKeywords (str "the sat cat on the mat. The cat was happy.") 3).
Proof.
  apply frequency_order_without_constructor.
  - vm_compute. intros H. repeat (destruct H as [H | H]; [discriminate H|]). exact H.
  - vm_compute. left. reflexivity.
  - vm_compute. right. left. reflexivity.
  - vm_compute. lia.
Defined.

Lemma ties_keep_entries_order_witness :
  precedes (str "sat") (str "mat")
    (map fst (JSArray.sort byFrequency
       (JSObject.entries (countWords (words (str "sat cat mat cat")))))).
Proof.
  apply (ties_keep_entries_order _ (str "sat") (str "mat") 1 1).
  - vm_compute. repeat (constructor; [eexists; reflexivity|]). constructor.
  - exists [], [(str "cat", JSObject.Number 2)], []. vm_compute. reflexivity.
  - lia.
Defined.

Lemma selectKeywords_first_n_witness :
  exists sorted,
    Permutation sorted [(str "sat", JSObject.Number 1); (str "cat", JSObject.Number 2)]
    /\ StronglySorted descending sorted
    /\ selectKeywords [(str "sat", JSObject.Number 1); (str "cat", JSObject.Number 2)]
         (Z.of_nat 1)
       = firstn 1 (map fst sorted)
    /\ selectKeywords [(str "sat", JSObject.Number 1); (str "cat", JSObject.Number 2)] 0
       = []
    /\ (List.length [(str "sat", JSObject.Number 1); (str "cat", JSObject.Number 2)] <= 1 ->
        selectKeywords [(str "sat", JSObject.Number 1); (str "cat", JSObject.Number 2)]
          (Z.of_nat 1)
        = map fst sorted)%nat.
Proof.
  apply selectKeywords_first_n.
  repeat (constructor; [eexists; reflexivity|]). constructor.
Defined.

Lemma highlight_no_keywords_no_word_witness :
  highlight (str "... ?!") [] = Some (str "... ?!").
Proof.
  apply highlight_no_keywords_no_word. vm_compute. reflexivity.
Defined.

Lemma keywords_ties_by_first_occurrence_witness :
  precedes (str "sat") (str "mat")
    (extractKeywords (str "the sat cat on the mat. The cat was happy.") 3).
Proof.
  apply keywords_ties_by_first_occurrence.
  - vm_compute. intros H. repeat (destruct H as [H | H]; [discriminate H|]). exact H.
  - vm_compute. reflexivity.
  - vm_compute. reflexivity.
  - exists [], [str "cat"], [str "happy"]. vm_compute. reflexivity.
  - vm_compute. lia.
  - vm_compute. right. left. reflexivity.
  - vm_compute. right. right. left. reflexivity.
Defined.

Lemma no_keywords_iff_stop_words_only_witness :
  extractKeywords (str "The and of.") 5 = []
  <-> (forall w, In w (words (str "The and of.")) -> has stopWords w = true).
Proof.
  apply no_keywords_iff_stop_words_only. lia.
Defined.

Lemma keywords_are_most_frequent_witness :
  (occurrences (str "mat") (words (str "the sat cat on the mat. The cat was happy."))
   <= occurrences (str "cat") (words (str "the sat cat on the mat. The cat was happy.")))%nat.
Proof.
  apply (keywords_are_most_frequent _ 1).
  - vm_compute. intros H. repeat (destruct H as [H | H]; [discriminate H|]). exact H.
  - vm_compute. left. reflexivity.
  - vm_compute. do 5 right. left. reflexivity.
  - vm_compute. reflexivity.
  - vm_compute. intros [H | H]; [discriminate H | exact H].
Defined.

Lemma more_keywords_extend_witness :
  extractKeywords (str "the sat cat on the mat. The cat was happy.") 1
  = firstn 1 (extractKeywords (str "the sat cat on the mat. The cat was happy.") 3).
Proof.
  apply (more_keywords_extend _ 1 3). lia.
Defined.

Lemma highlight_no_keywords_changes_text_witness :
  exists output,
    highlight (str "The and of.") [] = Some output
    /\ InsertsMarkers (str "The and of.") output
    /\ (List.length (str "The and of.") + 4 <= List.length output)%nat.
Proof.
  apply highlight_no_keywords_changes_text. vm_compute. reflexivity.
Defined.

Lemma submit_wraps_selected_words_witness :
  handleSubmit (mkState (str "The Cat sat; the cat.") 1 [])
  = Some (mkState (str "The Cat sat; the cat.") 1
            (str "The **Cat** sat; the **cat**.")).
Proof.
  apply (submit_wraps_selected_words (mkState (str "The Cat sat; the cat.") 1 [])).
  - vm_compute. discriminate.
  - vm_compute. discriminate.
Defined.

Lemma result_is_of_last_submission_witness :
  (exists st,
     run initialState [TextChanged (str "cat"); CountChanged 3] = Some st
     /\ resultPanel st = None)
  /\ (forall st evs,
        exists st1 st2 st3,
          run st evs = Some st1
          /\ handleSubmit st1 = Some st2
          /\ run st (evs ++ Submitted :: [TextChanged (str "cat"); CountChanged 3])
             = Some st3
          /\ highlighted st3 = highlighted st2).
Proof.
  apply result_is_of_last_submission. reflexivity.
Defined.
